(** * Attach-to-process picker: [ps] line parser, process lister, selector

    Shallow embedding of the TypeScript module that lists the running
    processes with [ps], parses every output line with a regular expression
    and lets the user pick one entry.

    - [JS]      : the fragment of the JavaScript runtime the module relies on
                  (strings as sequences of UTF-16 code units, [trim],
                  [includes], [split], [Number], [Number.prototype.toString]).
    - [RegExp]  : a backtracking matcher in the continuation style of the
                  ECMAScript specification, for the constructs that occur in
                  the pattern built by [parseLineFromPs].
    - the four functions of the module, in source order of dependency. *)

From Stdlib Require Import String Ascii ZArith NArith Bool Lia PeanoNat List.
Import ListNotations.

(* ===================================================================== *)
(** ** JavaScript runtime fragment                                        *)
(* ===================================================================== *)

Module JS.

(** A JavaScript string is a finite sequence of 16-bit code units. *)
Definition char := N.
Definition jsstring := list char.

(** Code units of an ASCII literal. *)
Definition str (s : string) : jsstring :=
  map N_of_ascii (list_ascii_of_string s).

(** LineTerminator: LF, CR, LS, PS. *)
Definition isLineTerminator (c : char) : bool :=
  ((c =? 0x000A) || (c =? 0x000D) || (c =? 0x2028) || (c =? 0x2029))%N.

(** WhiteSpace: TAB, VT, FF, SP, NBSP, ZWNBSP and the Unicode Zs class. *)
Definition isWhiteSpace (c : char) : bool :=
  ((c =? 0x0009) || (c =? 0x000B) || (c =? 0x000C) || (c =? 0x0020)
   || (c =? 0x00A0) || (c =? 0xFEFF) || (c =? 0x1680)
   || ((0x2000 <=? c) && (c <=? 0x200A))
   || (c =? 0x202F) || (c =? 0x205F) || (c =? 0x3000))%N.

(** The set stripped by [String.prototype.trim] and matched by [\s]. *)
Definition isSpace (c : char) : bool := isWhiteSpace c || isLineTerminator c.

Definition isDigit (c : char) : bool := ((48 <=? c) && (c <=? 57))%N.

(** [String.prototype.trimStart], [trimEnd], [trim]. *)
Fixpoint trimStart (s : jsstring) : jsstring :=
  match s with
  | c :: s' => if isSpace c then trimStart s' else s
  | [] => []
  end.

Definition trimEnd (s : jsstring) : jsstring := rev (trimStart (rev s)).

Definition trim (s : jsstring) : jsstring := trimEnd (trimStart s).

(** [String.prototype.startsWith] and [includes]. *)
Fixpoint startsWith (s p : jsstring) : bool :=
  match p, s with
  | [], _ => true
  | a :: p', b :: s' => (a =? b)%N && startsWith s' p'
  | _ :: _, [] => false
  end.

Fixpoint includes (s p : jsstring) : bool :=
  startsWith s p ||
  match s with
  | [] => false
  | _ :: s' => includes s' p
  end.

(** [String.prototype.split] with a one-code-unit separator. *)
Fixpoint split (sep : char) (s : jsstring) : list jsstring :=
  match s with
  | [] => [[]]
  | c :: s' =>
      if (c =? sep)%N then [] :: split sep s'
      else match split sep s' with
           | l :: ls => (c :: l) :: ls
           | [] => [[c]]
           end
  end.

(** A string is truthy when it is not empty. *)
Definition truthy (s : jsstring) : bool :=
  match s with [] => false | _ :: _ => true end.

(** The Number values that [Number] can produce from a string of decimal
    digits: the non-negative integers that are IEEE-754 doubles, and
    [+Infinity]. [NaN] stands for the outcome on any other string. *)
Inductive number :=
| Fin (n : N)
| PosInf
| NaN.

(** Round a non-negative integer to the nearest double, ties to even
    (53-bit significand); values that round to [2^1024] or more overflow. *)
Definition toDouble (n : N) : number :=
  if (n <? 2 ^ 53)%N then Fin n
  else
    let e := (N.log2 n - 52)%N in
    let q := N.shiftr n e in
    let r := (n - N.shiftl q e)%N in
    let half := N.shiftl 1 (e - 1) in
    let q' := if ((half <? r) || ((half =? r) && N.odd q))%N
              then (q + 1)%N else q in
    let v := N.shiftl q' e in
    if (v <? 2 ^ 1024)%N then Fin v else PosInf.

(** Mathematical value of a string of decimal digits, most significant
    digit first; [None] when a code unit is not a digit. *)
Fixpoint MV (acc : N) (s : jsstring) : option N :=
  match s with
  | [] => Some acc
  | c :: s' => if isDigit c then MV (10 * acc + (c - 48)) s' else None
  end.

(** The same value, read least significant digit first. *)
Definition valLsd (l : jsstring) : N :=
  fold_right (fun c v => (10 * v + (c - 48))%N) 0%N l.

(** [Number(s)] on digit strings (the empty string converts to 0). *)
Definition Number (s : jsstring) : number :=
  match MV 0 s with
  | Some n => toDouble n
  | None => NaN
  end.

(** Decimal digits of a natural number, least significant first. *)
Fixpoint digitsLsd (fuel : nat) (n : N) : jsstring :=
  match fuel with
  | O => []
  | S fuel' =>
      (48 + n mod 10)%N ::
      (if (n <? 10)%N then [] else digitsLsd fuel' (n / 10))
  end.

(** Canonical decimal numeral of [n]: no sign, no leading zero. A number
    below [2^k] has at most [k] decimal digits, so the fuel is never
    exhausted. *)
Definition decimal (n : N) : jsstring :=
  rev (digitsLsd (S (N.to_nat (N.log2 n))) n).

(** [String.prototype.padStart] and [padEnd] with the default filler, the
    space U+0020. *)
Definition padStart (s : jsstring) (w : nat) : jsstring :=
  repeat 32%N (w - length s) ++ s.

Definition padEnd (s : jsstring) (w : nat) : jsstring :=
  s ++ repeat 32%N (w - length s).

Section ToString.

(** [Number.prototype.toString] prints a safe integer as its canonical
    decimal numeral. For an integer-valued double from [2^53] on it prints
    the shortest digit string that converts back to the same double
    (followed by zeros or an exponent): those digits are not modelled and
    are taken from [toStringLarge]. *)
Variable toStringLarge : N -> jsstring.

Definition toString (x : number) : jsstring :=
  match x with
  | Fin n => if (n <? 2 ^ 53)%N then decimal n else toStringLarge n
  | PosInf => str "Infinity"
  | NaN => str "NaN"
  end.

End ToString.

(** Exceptions that the module can raise or let through. *)
Inductive exn :=
| Error (message : jsstring)
| TypeError.

(** Completion of a call: a value or a thrown exception. *)
Inductive completion (A : Type) :=
| Normal (a : A)
| Throw (e : exn).

Arguments Normal {A} a.
Arguments Throw {A} e.

Definition bind {A B} (c : completion A) (f : A -> completion B)
  : completion B :=
  match c with
  | Normal a => f a
  | Throw e => Throw e
  end.

(** Settled promise, as seen by [await]. *)
Inductive promise (A : Type) :=
| Resolved (a : A)
| Rejected (e : exn).

Arguments Resolved {A} a.
Arguments Rejected {A} e.

Definition await {A} (p : promise A) : completion A :=
  match p with
  | Resolved a => Normal a
  | Rejected e => Throw e
  end.

(** Reading a property of [undefined] throws a [TypeError]. *)
Definition deref {A} (o : option A) : completion A :=
  match o with
  | Some a => Normal a
  | None => Throw TypeError
  end.

End JS.

Import JS.

Notation "x <- c ;; k" := (bind c (fun x => k))
  (at level 61, c at next level, right associativity).

(* ===================================================================== *)
(** ** Regular expressions                                                *)
(* ===================================================================== *)

Module RegExp.

(** One-code-unit atoms. *)
Inductive cclass :=
| ClassSpace              (* \s    *)
| ClassDigit              (* [0-9] *)
| ClassAny                (* .     without the s flag *)
| ClassChar (c : char).   (* a literal pattern character *)

Definition cmatch (cl : cclass) (x : char) : bool :=
  match cl with
  | ClassSpace => isSpace x
  | ClassDigit => isDigit x
  | ClassAny => negb (isLineTerminator x)
  | ClassChar c => (x =? c)%N
  end.

(** Pattern syntax. Quantifiers are greedy and only ever apply to a
    one-code-unit atom in the patterns of this module. *)
Inductive regex :=
| Empty
| Atom (c : cclass)
| Seq (r1 r2 : regex)
| Star (c : cclass)              (* c*   *)
| Repeat (c : cclass) (n : nat)  (* c{n} *)
| Group (i : nat) (r : regex)    (* i-th capturing parenthesis *)
| Bol                            (* ^ without the m flag *)
| Eol.                           (* $ without the m flag *)

(** [c+] is [c] followed by [c*]. *)
Definition Plus (c : cclass) : regex := Seq (Atom c) (Star c).

Fixpoint seqs (rs : list regex) : regex :=
  match rs with
  | [] => Empty
  | r :: rs' => Seq r (seqs rs')
  end.

Definition literal (s : jsstring) : regex :=
  seqs (map (fun c => Atom (ClassChar c)) s).

Fixpoint ngroups (r : regex) : nat :=
  match r with
  | Seq r1 r2 => ngroups r1 + ngroups r2
  | Group _ r' => S (ngroups r')
  | _ => 0
  end.

(** Captures recorded so far, most recent first. *)
Definition captures := list (nat * jsstring).

Fixpoint capture (i : nat) (cs : captures) : option jsstring :=
  match cs with
  | [] => None
  | (j, x) :: cs' => if Nat.eqb i j then Some x else capture i cs'
  end.

(** Greedy iteration of an atom: the longest run first, each shorter run
    on backtracking. *)
Fixpoint greedy {R} (c : cclass) (s : jsstring) (pos : nat)
    (k : jsstring -> nat -> option R) : option R :=
  match s with
  | x :: s' =>
      if cmatch c x then
        match greedy c s' (S pos) k with
        | Some res => Some res
        | None => k s pos
        end
      else k s pos
  | [] => k s pos
  end.

(** Exactly [n] occurrences of an atom. *)
Fixpoint exactly {R} (c : cclass) (n : nat) (s : jsstring) (pos : nat)
    (k : jsstring -> nat -> option R) : option R :=
  match n with
  | O => k s pos
  | S n' =>
      match s with
      | x :: s' => if cmatch c x then exactly c n' s' (S pos) k else None
      | [] => None
      end
  end.

(** The matcher: [s] is the input from index [pos] on, [cs] the captures,
    [k] the continuation that matches the rest of the pattern. *)
Fixpoint m {R} (r : regex) (s : jsstring) (pos : nat) (cs : captures)
    (k : jsstring -> nat -> captures -> option R) : option R :=
  match r with
  | Empty => k s pos cs
  | Atom c =>
      match s with
      | x :: s' => if cmatch c x then k s' (S pos) cs else None
      | [] => None
      end
  | Seq r1 r2 => m r1 s pos cs (fun s' pos' cs' => m r2 s' pos' cs' k)
  | Star c => greedy c s pos (fun s' pos' => k s' pos' cs)
  | Repeat c n => exactly c n s pos (fun s' pos' => k s' pos' cs)
  | Group i r' =>
      m r' s pos cs
        (fun s' pos' cs' => k s' pos' ((i, firstn (pos' - pos) s) :: cs'))
  | Bol => if Nat.eqb pos 0 then k s pos cs else None
  | Eol => match s with [] => k s pos cs | _ :: _ => None end
  end.

(** The match array: the whole match, then the groups 1..n
    ([undefined] for a group that took no part in the match). *)
Definition matchArray (r : regex) (s : jsstring) (lastIndex e : nat)
    (cs : captures) : list (option jsstring) :=
  Some (firstn (e - lastIndex) s)
  :: map (fun i => capture i cs) (seq 1 (ngroups r)).

(** [RegExp.prototype.exec] without the g and y flags: try every start
    index from 0 up to the length of the input. *)
Fixpoint execFrom (r : regex) (s : jsstring) (lastIndex : nat)
  : option (list (option jsstring)) :=
  match m r s lastIndex [] (fun _ e cs => Some (e, cs)) with
  | Some (e, cs) => Some (matchArray r s lastIndex e cs)
  | None =>
      match s with
      | [] => None
      | _ :: s' => execFrom r s' (S lastIndex)
      end
  end.

Definition exec (r : regex) (s : jsstring) : option (list (option jsstring)) :=
  execFrom r s 0.

(** What a successful run of [m] on [r] consumes and records: [xs] is the
    matched text starting at index [pos], [rest] the input after it. *)
Inductive denote
  : regex -> nat -> jsstring -> jsstring -> captures -> captures -> Prop :=
| denote_empty pos rest cs :
    denote Empty pos [] rest cs cs
| denote_atom c x pos rest cs :
    cmatch c x = true ->
    denote (Atom c) pos [x] rest cs cs
| denote_seq r1 r2 pos xs ys rest cs cs1 cs2 :
    denote r1 pos xs (ys ++ rest) cs cs1 ->
    denote r2 (pos + length xs) ys rest cs1 cs2 ->
    denote (Seq r1 r2) pos (xs ++ ys) rest cs cs2
| denote_star c pos xs rest cs :
    forallb (cmatch c) xs = true ->
    denote (Star c) pos xs rest cs cs
| denote_repeat c n pos xs rest cs :
    length xs = n ->
    forallb (cmatch c) xs = true ->
    denote (Repeat c n) pos xs rest cs cs
| denote_group i r pos xs rest cs cs' :
    denote r pos xs rest cs cs' ->
    denote (Group i r) pos xs rest cs ((i, xs) :: cs')
| denote_bol rest cs :
    denote Bol 0 [] rest cs cs
| denote_eol pos cs :
    denote Eol pos [] [] cs cs.

(** [xs] is the first match of [r] in backtracking order: whenever the
    continuation accepts what follows [xs], the matcher returns that
    answer. *)
Definition firstMatch (r : regex) (pos : nat) (xs rest : jsstring)
    (cs cs' : captures) : Prop :=
  forall R (k : jsstring -> nat -> captures -> option R) res,
    k rest (pos + length xs) cs' = Some res ->
    m r (xs ++ rest) pos cs k = Some res.

(** The input after a greedy run of [c] does not start with a [c]. *)
Definition stops (c : cclass) (rest : jsstring) : bool :=
  match rest with
  | [] => true
  | x :: _ => negb (cmatch c x)
  end.

End RegExp.

Import RegExp.

(* ===================================================================== *)
(** ** The module                                                         *)
(* ===================================================================== *)

(** [interface ProcessItem extends vscode.QuickPickItem]: the fields the
    module sets. *)
Record ProcessItem := {
  pid : number;
  label : jsstring;
  description : jsstring;
  detail : jsstring
}.

(** The text [.{n}] of the pattern, as the [RegExp] constructor reads it
    once the template literal has printed the integer [n]: a bounded
    repetition of [.] for [0 <= n]; for a negative [n] the braces do not
    form a quantifier and, the u flag being absent, stand for themselves:
    one [.] followed by the literal characters [{-k}].
    This is the pattern of the code for the widths of the safe range,
    where JavaScript computes [w - 1] exactly and prints it in plain decimal
    notation; [braces] and [widthText] follow the code at every magnitude
    and are shown to coincide with this definition on the safe range. *)
Definition anyTimes (n : Z) : regex :=
  if (0 <=? n)%Z then Repeat ClassAny (Z.to_nat n)
  else Seq (Atom ClassAny)
           (literal (str "{-" ++ decimal (Z.to_N (- n)) ++ str "}")).

(** The pattern of [parseLineFromPs], node by node: start of input, [\s*],
    group 1 [[0-9]+], [\s+], group 2 [.{u-1}], [\s+], group 3 [.{c-1}],
    [\s+], group 4 (any number of [.]), end of input; [u] and [c] are the
    two width arguments. *)
Definition psEntry (usernameCharacters commandCharacters : Z) : regex :=
  seqs [ Bol;
         Star ClassSpace;
         Group 1 (Plus ClassDigit);
         Plus ClassSpace;
         Group 2 (anyTimes (usernameCharacters - 1));
         Plus ClassSpace;
         Group 3 (anyTimes (commandCharacters - 1));
         Plus ClassSpace;
         Group 4 (Star ClassAny);
         Eol ].

(** [matches[i]]: [undefined] when out of range or when the group is unset. *)
Definition item (i : nat) (matches : list (option jsstring))
  : option jsstring :=
  match nth_error matches i with
  | Some (Some x) => Some x
  | _ => None
  end.

(** The four constants [pid], [username], [executable], [cmdline] that
    [parseLineFromPs] computes from the match array. *)
Record PsFields := {
  pidText : jsstring;
  username : jsstring;
  executable : jsstring;
  cmdline : jsstring
}.

Definition psFields (matches : list (option jsstring)) : completion PsFields :=
  m1 <- deref (item 1 matches) ;;
  m2 <- deref (item 2 matches) ;;
  m3 <- deref (item 3 matches) ;;
  m4 <- deref (item 4 matches) ;;
  Normal {| pidText := trim m1;
            username := trim m2;
            executable := trim m3;
            cmdline := trim m4 |}.

(** The object literal built from the four constants. *)
Definition processItem (f : PsFields) : ProcessItem :=
  {| pid := Number (pidText f);
     label := username f ++ str ":" ++ executable f;
     description := pidText f;
     detail := cmdline f |}.

(** The guarded part of [parseLineFromPs], up to the four constants;
    [None] is [noValidProcess]. *)
Definition parsedFields (line : jsstring)
    (usernameCharacters commandCharacters : Z)
  : completion (option PsFields) :=
  match exec (psEntry usernameCharacters commandCharacters) line with
  | Some matches =>
      if Nat.eqb (length matches) 5
      then f <- psFields matches ;; Normal (Some f)
      else Normal None
  | None => Normal None
  end.

(** [parseLineFromPs]: the guarded part, then the object literal. *)
Definition parseLineFromPs (line : jsstring)
    (usernameCharacters commandCharacters : Z)
  : completion (option ProcessItem) :=
  f <- parsedFields line usernameCharacters commandCharacters ;;
  Normal (option_map processItem f).

(** What the promisified [exec] resolves with, as [getAttachItems]
    destructures it. *)
Record ExecResult := {
  error : option exn;
  stdout : jsstring;
  stderr : jsstring
}.

Definition usernameCharacters : Z := 20.
Definition commandCharacters : Z := 50.

(** The loop [for (let i = 1; i < output.length; i += 1)]: [count] is the
    number of iterations left, [output.length - i]. *)
Fixpoint attachLoop (output : list jsstring) (count i : nat)
    (quickPickList : list ProcessItem) : completion (list ProcessItem) :=
  match count with
  | O => Normal quickPickList
  | S count' =>
      let line := nth i output [] in
      if truthy line then
        processEntry <-
          parseLineFromPs line usernameCharacters commandCharacters ;;
        match processEntry with
        | Some entry => attachLoop output count' (S i) (quickPickList ++ [entry])
        | None => attachLoop output count' (S i) quickPickList
        end
      else attachLoop output count' (S i) quickPickList
  end.

Definition isSome {A} (o : option A) : bool :=
  match o with Some _ => true | None => false end.

(** [ps] is the settled promise of the [exec] call. *)
Definition getAttachItems (ps : promise ExecResult)
  : completion (list ProcessItem) :=
  r <- await ps ;;
  let options := stdout r in
  _ <- (if isSome (error r) || truthy (stderr r) then
          if truthy (stderr r)
             && includes (stderr r) (str "screen size is bogus")
          then Normal tt
          else Throw (Error (str "Unable to select process to attach to: "
                             ++ stderr r))
        else Normal tt) ;;
  let output := split 10%N options in
  attachLoop output (length output - 1) 1 [].

(** A template-literal hole: [undefined] prints as its name. *)
Definition hole (o : option jsstring) : jsstring :=
  match o with
  | Some s => s
  | None => str "undefined"
  end.

Section Host.

(** The surroundings of one invocation: the digits of large numbers, the
    outcome of the [ps] command, and the answer of the quick pick to the
    list it is shown ([None] when dismissed). *)
Variable toStringLarge : N -> jsstring.
Variable ps : promise ExecResult.
Variable showQuickPick : list ProcessItem -> option ProcessItem.

Definition chooseProcess : completion (option ProcessItem) :=
  items <- getAttachItems ps ;;
  let process := showQuickPick items in
  match process with
  | None => Throw (Error (str "Process not selected"))
  | Some p => Normal (Some p)
  end.

Definition pickProcess : completion jsstring :=
  processToReturn <- chooseProcess ;;
  let pid' := option_map (fun p => toString toStringLarge (pid p))
                         processToReturn in
  let label' := option_map label processToReturn in
  let toReturn := hole pid' ++ str ":" ++ hole label' in
  Normal toReturn.

End Host.

(* ===================================================================== *)
(** ** Notions used by the statements                                     *)
(* ===================================================================== *)

(** No leading and no trailing white space. *)
Definition noLeadingSpace (s : jsstring) : bool :=
  match s with
  | [] => true
  | c :: _ => negb (isSpace c)
  end.

Definition isTrimmed (s : jsstring) : bool :=
  noLeadingSpace s && noLeadingSpace (rev s).

Definition noLineTerminator (s : jsstring) : bool :=
  forallb (fun c => negb (isLineTerminator c)) s.

Definition allDigits (s : jsstring) : bool := forallb isDigit s.

(** A digit string is canonical when it is [0] or starts with a non-zero
    digit. *)
Definition canonicalDigits (s : jsstring) : bool :=
  match s with
  | [] => false
  | [c] => isDigit c
  | c :: _ => allDigits s && negb (c =? 48)%N
  end.

(** The process record of the specification: the [pid] is a non-negative
    integer, the three texts are the owner, the short command name and the
    argument list. *)
Record ProcessRecord := {
  r_pid : N;
  r_username : jsstring;
  r_executable : jsstring;
  r_commandLine : jsstring
}.

(** The item that stands for a record in the list shown to the user. *)
Definition itemOf (r : ProcessRecord) : ProcessItem :=
  {| pid := Fin (r_pid r);
     label := r_username r ++ str ":" ++ r_executable r;
     description := decimal (r_pid r);
     detail := r_commandLine r |}.

(** The synthetic line of the round-trip property, laid out as in the
    sample output quoted in [getAttachItems]: the pid right-aligned in a
    column of [pidWidth], a separator, the user name left-aligned in a column
    of [usernameCharacters], a separator, the command name left-aligned in a
    column of [commandCharacters], a separator, and the arguments. *)
Definition syntheticLine (pidWidth : nat) (r : ProcessRecord)
    (usernameCharacters commandCharacters : Z) : jsstring :=
  padStart (decimal (r_pid r)) pidWidth
  ++ str " " ++ padEnd (r_username r) (Z.to_nat usernameCharacters)
  ++ str " " ++ padEnd (r_executable r) (Z.to_nat commandCharacters)
  ++ str " " ++ r_commandLine r.

(** The lister as the specification words it: keep the non-empty lines,
    parse each one, keep the records in the order of their lines. *)
Definition parsedLine (line : jsstring) : list ProcessItem :=
  match parseLineFromPs line usernameCharacters commandCharacters with
  | Normal (Some entry) => [entry]
  | _ => []
  end.

Definition parsedLines (lines : list jsstring) : list ProcessItem :=
  flat_map parsedLine (filter truthy lines).

(** Some run of the matcher consumes exactly [xs] for [r]. *)
Definition matchedBy (r : regex) (xs : jsstring) : Prop :=
  exists pos rest cs cs', denote r pos xs rest cs cs'.

(** Structural match: the layout of the lines on which [psEntry] succeeds,
    with the match array that [exec] then returns. *)
Inductive psMatch (usernameCharacters commandCharacters : Z)
  : jsstring -> list (option jsstring) -> Prop :=
| psMatch_intro ws0 ds ws1 f2 ws2 f3 ws3 f4 :
    forallb isSpace ws0 = true ->
    ds <> [] -> allDigits ds = true ->
    ws1 <> [] -> forallb isSpace ws1 = true ->
    matchedBy (anyTimes (usernameCharacters - 1)) f2 ->
    ws2 <> [] -> forallb isSpace ws2 = true ->
    matchedBy (anyTimes (commandCharacters - 1)) f3 ->
    ws3 <> [] -> forallb isSpace ws3 = true ->
    noLineTerminator f4 = true ->
    psMatch usernameCharacters commandCharacters
      (ws0 ++ ds ++ ws1 ++ f2 ++ ws2 ++ f3 ++ ws3 ++ f4)
      [ Some (ws0 ++ ds ++ ws1 ++ f2 ++ ws2 ++ f3 ++ ws3 ++ f4);
        Some ds; Some f2; Some f3; Some f4 ].

(** The precondition of the round-trip property as it is worded: the three
    texts are trimmed and fit their columns, the last character of a column
    being the one the pattern leaves out of the capture. *)
Definition trimmedAndFits (r : ProcessRecord)
    (usernameCharacters commandCharacters : Z) : bool :=
  isTrimmed (r_username r) && isTrimmed (r_executable r)
  && isTrimmed (r_commandLine r)
  && (Z.of_nat (length (r_username r)) <=? usernameCharacters - 1)%Z
  && (Z.of_nat (length (r_executable r)) <=? commandCharacters - 1)%Z.

(* ===================================================================== *)
(** ** Sample inputs                                                      *)
(* ===================================================================== *)

(** The line of the worked example, and its record. *)
Definition exampleLine : jsstring :=
  str "    1 root                 systemd                                            /sbin/init".

Definition initRecord : ProcessRecord :=
  {| r_pid := 1; r_username := str "root"; r_executable := str "systemd";
     r_commandLine := str "/sbin/init" |}.

(** The same line with the pid written [007]. *)
Definition zeroPaddedLine : jsstring :=
  str "  007 root                 systemd                                            /sbin/init".

(** A line whose pid is 42. *)
Definition line42 : jsstring :=
  str "   42 root                 systemd                                            /sbin/init".

(** A line that matches the pattern built for the widths 0 and 0. *)
Definition zeroWidthLine : jsstring := str "1 a{-1} b{-1} cmd".

(** The header that [ps] prints first. *)
Definition headerLine : jsstring :=
  str "  PID USER                 COMMAND                                            COMMAND".

Definition newline : jsstring := [10%N].

(** A record without a command name whose arguments contain a space. *)
Definition namelessRecord : ProcessRecord :=
  {| r_pid := 1; r_username := str "root"; r_executable := [];
     r_commandLine := repeat 120%N 48 ++ str " y" |}.

(** A record whose arguments contain a carriage return. *)
Definition carriageReturnRecord : ProcessRecord :=
  {| r_pid := 1; r_username := str "root"; r_executable := str "sh";
     r_commandLine := [97; 13; 98]%N |}.

(** A record whose user name fills its column of 20 entirely. *)
Definition wideNameRecord : ProcessRecord :=
  {| r_pid := 1; r_username := str "abcdefghijklmnopqrst";
     r_executable := str "sh"; r_commandLine := str "ls" |}.

(** The warning that [ps] prints on a terminal of degenerate size. *)
Definition bogusWarning : jsstring :=
  str "your 131072x1 screen size is bogus. expect trouble".

Definition psOutput (lines : list jsstring) (diagnostic : jsstring)
  : promise ExecResult :=
  Resolved {| error := None;
              stdout := concat (map (fun l => l ++ newline) lines);
              stderr := diagnostic |}.

(** Two answers of the quick pick: the first entry, and a dismissal. *)
Definition pickFirst (items : list ProcessItem) : option ProcessItem :=
  hd_error items.

Definition dismiss (items : list ProcessItem) : option ProcessItem := None.

Definition noDigits (n : N) : jsstring := [].

(* ===================================================================== *)
(** ** Further notions                                                    *)
(* ===================================================================== *)

(** The longest prefix whose code units all satisfy [p]. *)
Fixpoint takeWhile (p : char -> bool) (s : jsstring) : jsstring :=
  match s with
  | [] => []
  | x :: s' => if p x then x :: takeWhile p s' else []
  end.

(** The text before the first colon, as the consumer of the picked value
    splits it. *)
Definition beforeColon (s : jsstring) : jsstring :=
  takeWhile (fun x => negb (x =? 58)%N) s.

(** Number of line feeds of a text. *)
Definition lineFeeds (s : jsstring) : nat :=
  length (filter (fun x => (x =? 10)%N) s).

(** Patterns without the start-of-input assertion. *)
Fixpoint bolFree (r : regex) : bool :=
  match r with
  | Bol => false
  | Seq r1 r2 => bolFree r1 && bolFree r2
  | Group _ r' => bolFree r'
  | _ => true
  end.

(** The pattern after its leading [^\s*]. *)
Definition psEntryTail (usernameCharacters commandCharacters : Z) : regex :=
  seqs [ Group 1 (Plus ClassDigit);
         Plus ClassSpace;
         Group 2 (anyTimes (usernameCharacters - 1));
         Plus ClassSpace;
         Group 3 (anyTimes (commandCharacters - 1));
         Plus ClassSpace;
         Group 4 (Star ClassAny);
         Eol ].

(** The shortest kind of line that matches: one digit, one separator, two
    full fields each followed by one separator, and no arguments. *)
Definition shortestLine (usernameCharacters commandCharacters : Z)
  : jsstring :=
  str "1 " ++ repeat 120%N (Z.to_nat (usernameCharacters - 1))
  ++ str " " ++ repeat 120%N (Z.to_nat (commandCharacters - 1))
  ++ str " ".

(** The error with which the promise of [exec] rejects when [ps] exits
    with a non-zero status after printing its warning. *)
Definition commandFailed : exn :=
  Error (str "Command failed: ps -ax -o pid,uname:20,comm:50,args"
         ++ newline ++ bogusWarning ++ newline).

(** The items of the two sample lines. *)
Definition initItem : ProcessItem :=
  {| pid := Fin 1; label := str "root:systemd";
     description := str "1"; detail := str "/sbin/init" |}.

Definition item42 : ProcessItem :=
  {| pid := Fin 42; label := str "root:systemd";
     description := str "42"; detail := str "/sbin/init" |}.

(* ===================================================================== *)
(** ** The bundle entries of the build configuration                      *)
(* ===================================================================== *)

Module Webpack.

(** [s.replace(/^p/, '')] for a pattern that is the literal text [p]
    anchored at the start: the prefix goes when it is there. *)
Definition removePrefix (p s : jsstring) : jsstring :=
  if startsWith s p then skipn (length p) s else s.

(** [s.replace(/p$/, '')] for a pattern that is the literal text [p]
    anchored at the end: the suffix goes when it is there. *)
Definition removeSuffix (p s : jsstring) : jsstring :=
  if startsWith (rev s) (rev p) then firstn (length s - length p) s else s.

(** The constant [entry] of the reducer: the file path without the leading
    [./src/] and without the trailing [.ts]. *)
Definition entryName (filePath : jsstring) : jsstring :=
  removeSuffix (str ".ts") (removePrefix (str "./src/") filePath).

(** An object with string values, as the list of its own properties. *)
Definition object := list (jsstring * jsstring).

Definition sameString (a b : jsstring) : bool :=
  if list_eq_dec N.eq_dec a b then true else false.

Fixpoint getOwn (key : jsstring) (o : object) : option jsstring :=
  match o with
  | [] => None
  | (k, v) :: o' => if sameString k key then Some v else getOwn key o'
  end.

Fixpoint setOwn (key v : jsstring) (o : object) : object :=
  match o with
  | [] => [(key, v)]
  | (k, x) :: o' =>
      if sameString k key then (k, v) :: o' else (k, x) :: setOwn key v o'
  end.

(** [acc[key] = v] on an ordinary object: the key [__proto__] reaches the
    inherited setter, which ignores a string, and every other key becomes or
    updates an own property. *)
Definition assign (key v : jsstring) (acc : object) : object :=
  if sameString key (str "__proto__") then acc else setOwn key v acc.

(** The [reduce] over the paths that [glob.sync] returned. *)
Definition entry (files : list jsstring) : object :=
  fold_left (fun acc filePath => assign (entryName filePath) filePath acc)
            files [].

(** Two sample source files. *)
Definition sampleFiles : list jsstring :=
  [ str "./src/extension.ts"; str "./src/debugger/processList.ts" ].

End Webpack.

(* ===================================================================== *)
(** ** Widths of any magnitude                                            *)
(* ===================================================================== *)

(** [psEntry] stands for the pattern of the code as long as the template
    literal prints [w - 1] in plain decimal, which it does for the safe
    integers. The definitions below follow the code for every integer width
    that is a double: the subtraction rounds, [Number::toString] prints the
    shortest digits that convert back to the double, with an exponent from
    [1e21] on, and the [RegExp] constructor reads the text between the
    braces as it stands. *)

(** Is [x] the finite double [v]? *)
Definition isFin (v : N) (x : number) : bool :=
  match x with
  | Fin m => (m =? v)%N
  | _ => false
  end.

(** The integers [s] of [k] digits such that [s * 10^(n-k)] converts to the
    double [v], paired with [n]; only the two multiples next to [v] can be
    the closest. *)
Definition digitCandidates (v : N) (k n : nat) : list (N * nat) :=
  if Nat.ltb n k then []
  else
    let p := (10 ^ N.of_nat (n - k))%N in
    let lo := (v / p)%N in
    filter (fun sn =>
              ((10 ^ N.of_nat (k - 1) <=? fst sn)
               && (fst sn <? 10 ^ N.of_nat k))%N
              && isFin v (toDouble (fst sn * p)))
           [(lo, n); ((lo + 1)%N, n)].

(** Distance from [s * 10^(n-k)] to [v]. *)
Definition digitDistance (v : N) (k : nat) (sn : N * nat) : N :=
  let x := (fst sn * 10 ^ N.of_nat (snd sn - k))%N in
  if (x <? v)%N then (v - x)%N else (x - v)%N.

(** The closer candidate; of two equally close ones, the even one. *)
Definition closer (v : N) (k : nat) (a b : N * nat) : N * nat :=
  if (digitDistance v k b <? digitDistance v k a)%N then b
  else if (digitDistance v k a <? digitDistance v k b)%N then a
  else if N.even (fst a) then a else b.

(** The integers [n], [k], [s] of [Number::toString]: [k] as small as
    possible, tried from [k] upwards for [count] values; 17 digits always
    suffice for a double, and the exact numeral of [v] is the value when the
    count is exhausted. *)
Fixpoint shortestFrom (v : N) (n0 count k : nat) : N * nat * nat :=
  match count with
  | O => (v, n0, n0)
  | S count' =>
      match digitCandidates v k n0 ++ digitCandidates v k (S n0) with
      | [] => shortestFrom v n0 count' (S k)
      | a :: others =>
          let best := fold_left (closer v k) others a in
          (fst best, k, snd best)
      end
  end.

Definition shortest (v : N) : N * nat * nat :=
  shortestFrom v (length (decimal v)) 17 1.

(** [Number::toString] of the integer-valued double [v]: the digits of [s]
    followed by zeros up to 21 digits, and beyond that the first digit, a
    period before further digits if any, and the exponent. *)
Definition toStringInteger (v : N) : jsstring :=
  match shortest v with
  | (s, k, n) =>
      if Nat.leb n 21 then decimal s ++ repeat 48%N (n - k)
      else
        match decimal s with
        | [] => []
        | d :: [] => [d] ++ str "e+" ++ decimal (N.of_nat (n - 1))
        | d :: more =>
            d :: 46%N :: more ++ str "e+" ++ decimal (N.of_nat (n - 1))
        end
  end.

(** The text that the template literal prints for [w - 1], the width [w]
    being an integer-valued double. *)
Definition widthText (w : Z) : jsstring :=
  let z := (w - 1)%Z in
  if (z <? 0)%Z
  then str "-" ++ toString toStringInteger (toDouble (Z.to_N (- z)))
  else toString toStringInteger (toDouble (Z.to_N z)).

(** A pattern character of such a text: the period matches any character
    but a line terminator, every other character stands for itself. *)
Definition textAtom (x : char) : cclass :=
  if (x =? 46)%N then ClassAny else ClassChar x.

(** The terms of such a text: a character followed by [+] is repeated one
    or more times. *)
Fixpoint readText (s : jsstring) : list regex :=
  match s with
  | [] => []
  | x :: s' =>
      match s' with
      | q :: s'' =>
          if (q =? 43)%N then Plus (textAtom x) :: readText s''
          else Atom (textAtom x) :: readText s'
      | [] => [Atom (textAtom x)]
      end
  end.

(** The pattern text [.] followed by the braces around [text]: a bounded
    repetition when [text] is a string of digits, and otherwise one [.]
    followed by the braces and the text read as pattern characters. *)
Definition braces (text : jsstring) : regex :=
  match (if truthy text then MV 0 text else None) with
  | Some n => Repeat ClassAny (N.to_nat n)
  | None => Seq (Atom ClassAny) (seqs (readText (str "{" ++ text ++ str "}")))
  end.

Definition psEntryDouble (usernameCharacters commandCharacters : Z) : regex :=
  seqs [ Bol;
         Star ClassSpace;
         Group 1 (Plus ClassDigit);
         Plus ClassSpace;
         Group 2 (braces (widthText usernameCharacters));
         Plus ClassSpace;
         Group 3 (braces (widthText commandCharacters));
         Plus ClassSpace;
         Group 4 (Star ClassAny);
         Eol ].

(** The body of [parseLineFromPs] for a given pattern. *)
Definition parsedFieldsWith (psEntry : regex) (line : jsstring)
  : completion (option PsFields) :=
  match exec psEntry line with
  | Some matches =>
      if Nat.eqb (length matches) 5
      then f <- psFields matches ;; Normal (Some f)
      else Normal None
  | None => Normal None
  end.

(** [parseLineFromPs] for integer widths of any magnitude. *)
Definition parseLineFromPsDouble (line : jsstring)
    (usernameCharacters commandCharacters : Z)
  : completion (option ProcessItem) :=
  f <- parsedFieldsWith
         (psEntryDouble usernameCharacters commandCharacters) line ;;
  Normal (option_map processItem f).

(** A short line that matches the pattern built for the width [1e21]. *)
Definition exponentLine : jsstring := str "1 a{1e21} bc x".

(** Inversion that leaves only the consequences in the context. *)
Ltac inv H := inversion H; subst; clear H.

(* ===================================================================== *)
(** ** Facts about the runtime fragment                                   *)
(* ===================================================================== *)

Section TrimFacts.

Lemma trimStart_noLeadingSpace (s : jsstring) :
  noLeadingSpace (trimStart s) = true.
Proof.
  induction s as [|c s IH]; simpl; [reflexivity|].
  destruct (isSpace c) eqn:E; [exact IH|].
  simpl. now rewrite E.
Qed.

Lemma trimStart_id (s : jsstring) :
  noLeadingSpace s = true -> trimStart s = s.
Proof.
  destruct s as [|c s]; simpl; [reflexivity|].
  destruct (isSpace c); [discriminate|reflexivity].
Qed.

Lemma trimStart_spaces (a b : jsstring) :
  forallb isSpace a = true -> trimStart (a ++ b) = trimStart b.
Proof.
  induction a as [|c a IH]; simpl; [reflexivity|].
  intros H. apply andb_prop in H as [Hc Ha].
  rewrite Hc. now apply IH.
Qed.

Lemma trimStart_keeps (a b : jsstring) (c : char) :
  isSpace c = false -> trimStart (a ++ c :: b) = trimStart a ++ c :: b.
Proof.
  intros Hc. induction a as [|x a IH]; simpl.
  - now rewrite Hc.
  - destruct (isSpace x); [exact IH|reflexivity].
Qed.

Lemma trimStart_length (s : jsstring) : length (trimStart s) <= length s.
Proof.
  induction s as [|c s IH]; simpl; [lia|].
  destruct (isSpace c); simpl; lia.
Qed.

Lemma trim_length (s : jsstring) : length (trim s) <= length s.
Proof.
  unfold trim, trimEnd. rewrite length_rev.
  etransitivity; [apply trimStart_length|].
  rewrite length_rev. apply trimStart_length.
Qed.

Lemma trim_isTrimmed (s : jsstring) : isTrimmed (trim s) = true.
Proof.
  unfold isTrimmed, trim, trimEnd. rewrite rev_involutive.
  rewrite trimStart_noLeadingSpace, andb_true_r.
  pose proof (trimStart_noLeadingSpace s) as H.
  destruct (trimStart s) as [|c t]; [reflexivity|].
  simpl in H. apply negb_true_iff in H.
  simpl rev. rewrite (trimStart_keeps _ [] c H), rev_app_distr. simpl.
  now rewrite H.
Qed.

Lemma trim_id (s : jsstring) : isTrimmed s = true -> trim s = s.
Proof.
  unfold isTrimmed, trim, trimEnd. intros H.
  apply andb_prop in H as [H1 H2].
  now rewrite (trimStart_id _ H1), (trimStart_id _ H2), rev_involutive.
Qed.

Lemma spaces_isSpace (k : nat) : forallb isSpace (repeat 32%N k) = true.
Proof. induction k; simpl; [reflexivity|exact IHk]. Qed.

Lemma rev_repeat (A : Type) (x : A) (k : nat) :
  rev (repeat x k) = repeat x k.
Proof.
  induction k as [|k IH]; simpl; [reflexivity|].
  rewrite IH. symmetry. apply repeat_cons.
Qed.

(** Trimming removes the padding of a trimmed text. *)
Lemma trim_padded (u : jsstring) (k : nat) :
  isTrimmed u = true -> trim (u ++ repeat 32%N k) = u.
Proof.
  intros H. pose proof H as H'. apply andb_prop in H' as [H1 H2].
  unfold trim, trimEnd. destruct u as [|c u].
  - simpl app. rewrite <- (app_nil_r (repeat _ k)).
    rewrite trimStart_spaces by apply spaces_isSpace. reflexivity.
  - rewrite (trimStart_id ((c :: u) ++ _)) by exact H1.
    rewrite rev_app_distr, rev_repeat.
    rewrite trimStart_spaces by apply spaces_isSpace.
    now rewrite (trimStart_id _ H2), rev_involutive.
Qed.

Lemma digit_not_space (c : char) : isDigit c = true -> isSpace c = false.
Proof.
  unfold isDigit, isSpace, isWhiteSpace, isLineTerminator. intros H.
  apply andb_prop in H as [H1 H2].
  apply N.leb_le in H1. apply N.leb_le in H2.
  repeat match goal with
         | |- context [(c =? ?k)%N] =>
             destruct (N.eqb_spec c k); [lia|]
         | |- context [(?k <=? c)%N] =>
             destruct (N.leb_spec k c); [lia|]
         end.
  reflexivity.
Qed.

Lemma forallb_reverse (A : Type) (f : A -> bool) (l : list A) :
  forallb f (rev l) = forallb f l.
Proof.
  induction l as [|x l IH]; simpl; [reflexivity|].
  rewrite forallb_app, IH. simpl. rewrite andb_true_r. apply andb_comm.
Qed.

Lemma trim_digits (s : jsstring) : allDigits s = true -> trim s = s.
Proof.
  intros H. apply trim_id. unfold isTrimmed.
  assert (Hn : forall t, allDigits t = true -> noLeadingSpace t = true).
  { intros [|c t] Ht; [reflexivity|]. simpl in *.
    apply andb_prop in Ht as [Hc _].
    now rewrite (digit_not_space _ Hc). }
  rewrite (Hn _ H). apply Hn. unfold allDigits.
  now rewrite forallb_reverse.
Qed.

End TrimFacts.

Section NumberFacts.

Open Scope N_scope.

Lemma isDigit_range (c : char) : isDigit c = true <-> 48 <= c <= 57.
Proof.
  unfold isDigit. rewrite andb_true_iff, !N.leb_le. reflexivity.
Qed.

Lemma isDigit_of_digit (d : N) : d < 10 -> isDigit (48 + d) = true.
Proof. intros H. apply isDigit_range. lia. Qed.

Lemma MV_app (a b : jsstring) : forall acc,
  MV acc (a ++ b) = match MV acc a with
                    | Some n => MV n b
                    | None => None
                    end.
Proof.
  induction a as [|c a IH]; intros acc; simpl; [reflexivity|].
  destruct (isDigit c); [apply IH|reflexivity].
Qed.

Lemma MV_valLsd (l : jsstring) :
  allDigits l = true -> MV 0 (rev l) = Some (valLsd l).
Proof.
  induction l as [|c l IH]; simpl; [reflexivity|].
  intros H. apply andb_prop in H as [Hc Hl].
  rewrite MV_app, (IH Hl). simpl. now rewrite Hc.
Qed.

Lemma MV_allDigits (s : jsstring) : forall acc n,
  MV acc s = Some n -> allDigits s = true.
Proof.
  induction s as [|c s IH]; intros acc n; simpl; [reflexivity|].
  destruct (isDigit c); [|discriminate]. intros H. simpl. eapply IH, H.
Qed.

Lemma digitsLsd_allDigits (fuel : nat) : forall n,
  allDigits (digitsLsd fuel n) = true.
Proof.
  induction fuel as [|f IH]; intros n; [reflexivity|].
  cbn [digitsLsd allDigits forallb].
  rewrite isDigit_of_digit by (apply N.mod_lt; lia).
  destruct (n <? 10); [reflexivity|apply IH].
Qed.

Lemma valLsd_cons (c : char) (l : jsstring) :
  valLsd (c :: l) = 10 * valLsd l + (c - 48).
Proof. reflexivity. Qed.

Lemma digitsLsd_value (fuel : nat) : forall n,
  n < 2 ^ N.of_nat fuel -> valLsd (digitsLsd fuel n) = n.
Proof.
  induction fuel as [|f IH]; intros n Hn.
  - simpl in *. lia.
  - rewrite Nat2N.inj_succ, N.pow_succ_r' in Hn.
    cbn [digitsLsd]. rewrite valLsd_cons, (N.add_comm 48), N.add_sub.
    pose proof (N.div_mod n 10 ltac:(lia)) as Hdm.
    pose proof (N.mod_lt n 10 ltac:(lia)) as Hlt.
    destruct (N.ltb_spec n 10) as [Hs|Hs].
    + rewrite N.mod_small by exact Hs. simpl. lia.
    + rewrite IH; [lia|].
      assert (n / 10 <= n / 2) by (apply N.div_le_compat_l; lia).
      assert (n / 2 < 2 ^ N.of_nat f) by (apply N.Div0.div_lt_upper_bound; lia).
      lia.
Qed.

Lemma decimal_fuel (n : N) : n < 2 ^ N.of_nat (S (N.to_nat (N.log2 n))).
Proof.
  rewrite Nat2N.inj_succ, N2Nat.id.
  destruct n as [|p]; [reflexivity|].
  apply N.log2_spec. reflexivity.
Qed.

Lemma decimal_allDigits (n : N) : allDigits (decimal n) = true.
Proof.
  unfold decimal, allDigits. rewrite forallb_reverse.
  apply digitsLsd_allDigits.
Qed.

Lemma decimal_nonempty (n : N) : decimal n <> [].
Proof.
  unfold decimal. cbn [digitsLsd rev]. intros H.
  apply app_eq_nil in H as [_ H]. discriminate.
Qed.

(** Reading the canonical numeral of [n] gives [n] back. *)
Lemma MV_decimal (n : N) : MV 0 (decimal n) = Some n.
Proof.
  unfold decimal. rewrite MV_valLsd by apply digitsLsd_allDigits.
  f_equal. apply digitsLsd_value, decimal_fuel.
Qed.

Lemma toDouble_safe (n : N) : n < 2 ^ 53 -> toDouble n = Fin n.
Proof.
  intros H. unfold toDouble.
  destruct (N.ltb_spec n (2 ^ 53)); [reflexivity|lia].
Qed.

Lemma Number_decimal (n : N) : n < 2 ^ 53 -> Number (decimal n) = Fin n.
Proof.
  intros H. unfold Number. rewrite MV_decimal. now apply toDouble_safe.
Qed.

Lemma valLsd_top (l : jsstring) (c : char) :
  isDigit c = true -> c <> 48 -> 1 <= valLsd (l ++ [c]).
Proof.
  intros Hc Hz. apply isDigit_range in Hc.
  induction l as [|d l IH].
  - cbn [app]. rewrite valLsd_cons. simpl valLsd. lia.
  - cbn [app]. rewrite valLsd_cons. lia.
Qed.

Lemma digitsLsd_canonical (l : jsstring) : forall c fuel,
  allDigits (l ++ [c]) = true ->
  l = [] \/ c <> 48 ->
  valLsd (l ++ [c]) < 2 ^ N.of_nat (S fuel) ->
  digitsLsd (S fuel) (valLsd (l ++ [c])) = l ++ [c].
Proof.
  induction l as [|d l IH]; intros c fuel Hall Hc Hv.
  - cbn [app] in *. cbn [allDigits forallb] in Hall.
    rewrite andb_true_r in Hall. apply isDigit_range in Hall.
    rewrite valLsd_cons in *. change (valLsd []) with 0 in *.
    rewrite N.mul_0_r, N.add_0_l in *.
    assert (E : c - 48 < 10) by lia.
    cbn [digitsLsd]. rewrite N.mod_small by exact E.
    apply N.ltb_lt in E. rewrite E. f_equal. lia.
  - destruct Hc as [Hc|Hc]; [discriminate|].
    cbn [app allDigits forallb] in Hall.
    apply andb_prop in Hall as [Hd Hall].
    pose proof Hall as Hall'.
    rewrite forallb_app in Hall'. apply andb_prop in Hall' as [_ Hcd].
    cbn [forallb] in Hcd. rewrite andb_true_r in Hcd.
    pose proof (valLsd_top l c Hcd Hc) as Hpos.
    apply isDigit_range in Hd.
    cbn [app] in *. rewrite valLsd_cons in *.
    set (v := valLsd (l ++ [c])) in *.
    assert (Hq : (10 * v + (d - 48)) / 10 = v).
    { symmetry. apply N.div_unique with (r := d - 48); lia. }
    assert (Hr : (10 * v + (d - 48)) mod 10 = d - 48).
    { symmetry. apply N.mod_unique with (q := v); lia. }
    cbn [digitsLsd]. rewrite Hq, Hr. clear Hq Hr.
    destruct (N.ltb_spec (10 * v + (d - 48)) 10) as [Hs|Hs]; [lia|].
    rewrite Nat2N.inj_succ, N.pow_succ_r' in Hv.
    destruct fuel as [|fuel].
    { change (N.of_nat 0) with 0 in Hv. rewrite N.pow_0_r in Hv. lia. }
    unfold v. rewrite IH; trivial; [|now right|fold v; lia].
    f_equal. lia.
Qed.

(** A canonical digit string is the canonical numeral of its value. *)
Lemma decimal_MV (s : jsstring) (n : N) :
  canonicalDigits s = true -> MV 0 s = Some n -> decimal n = s.
Proof.
  intros Hc Hn.
  pose proof (MV_allDigits _ _ _ Hn) as Hall.
  destruct s as [|c t]; [discriminate|].
  assert (Hz : rev t = [] \/ c <> 48).
  { destruct t as [|c' t]; [now left|right].
    cbn [canonicalDigits] in Hc. apply andb_prop in Hc as [_ Hc].
    apply negb_true_iff, N.eqb_neq in Hc. exact Hc. }
  assert (Hl : allDigits (rev t ++ [c]) = true).
  { change (rev t ++ [c]) with (rev (c :: t)).
    unfold allDigits. now rewrite forallb_reverse. }
  pose proof (MV_valLsd _ Hl) as Hv.
  rewrite rev_app_distr, rev_involutive in Hv. cbn [rev app] in Hv.
  assert (n = valLsd (rev t ++ [c])) by congruence. subst n.
  unfold decimal.
  rewrite (digitsLsd_canonical _ _ _ Hl Hz (decimal_fuel _)).
  rewrite rev_app_distr, rev_involutive. reflexivity.
Qed.

End NumberFacts.

(* ===================================================================== *)
(** ** Facts about the matcher                                            *)
(* ===================================================================== *)

Section MatcherFacts.

(** *** Every answer of the matcher comes from a match *)

Lemma greedy_sound (R : Type) (c : cclass) :
  forall s pos (k : jsstring -> nat -> option R) res,
    greedy c s pos k = Some res ->
    exists xs rest,
      s = xs ++ rest /\ forallb (cmatch c) xs = true /\
      k rest (pos + length xs) = Some res.
Proof.
  induction s as [|x s IH]; intros pos k res H; cbn [greedy] in H.
  - exists [], []. cbn. now rewrite Nat.add_0_r.
  - destruct (cmatch c x) eqn:Ex.
    + destruct (greedy c s (S pos) k) as [res'|] eqn:Eg.
      * inv H. apply IH in Eg as (xs & rest & -> & Hxs & Hk).
        exists (x :: xs), rest. cbn. rewrite Ex, Hxs.
        now rewrite Nat.add_succ_r.
      * exists [], (x :: s). cbn. now rewrite Nat.add_0_r.
    + exists [], (x :: s). cbn. now rewrite Nat.add_0_r.
Qed.

Lemma exactly_sound (R : Type) (c : cclass) :
  forall n s pos (k : jsstring -> nat -> option R) res,
    exactly c n s pos k = Some res ->
    exists xs rest,
      s = xs ++ rest /\ length xs = n /\ forallb (cmatch c) xs = true /\
      k rest (pos + length xs) = Some res.
Proof.
  induction n as [|n IH]; intros s pos k res H; cbn [exactly] in H.
  - exists [], s. cbn. now rewrite Nat.add_0_r.
  - destruct s as [|x s]; [discriminate|].
    destruct (cmatch c x) eqn:Ex; [|discriminate].
    apply IH in H as (xs & rest & -> & Hn & Hxs & Hk).
    exists (x :: xs), rest. cbn [app length forallb].
    rewrite Ex, Hxs, Nat.add_succ_r.
    repeat split; [now f_equal|exact Hk].
Qed.

Lemma m_sound (R : Type) (r : regex) :
  forall s pos cs (k : jsstring -> nat -> captures -> option R) res,
    m r s pos cs k = Some res ->
    exists xs rest cs',
      s = xs ++ rest /\ denote r pos xs rest cs cs' /\
      k rest (pos + length xs) cs' = Some res.
Proof.
  induction r as [|c|r1 IH1 r2 IH2|c|c n|i r IH| |];
    intros s pos cs k res H; cbn [m] in H.
  - exists [], s, cs. cbn. rewrite Nat.add_0_r.
    repeat split; [constructor|exact H].
  - destruct s as [|x s]; [discriminate|].
    destruct (cmatch c x) eqn:Ex; [|discriminate].
    exists [x], s, cs. cbn. rewrite Nat.add_1_r.
    repeat split; [now constructor|exact H].
  - apply IH1 in H as (xs & rest1 & cs1 & -> & H1 & H).
    apply IH2 in H as (ys & rest & cs2 & -> & H2 & H).
    exists (xs ++ ys), rest, cs2. rewrite <- app_assoc.
    repeat split; [econstructor; eassumption|].
    now rewrite length_app, Nat.add_assoc.
  - apply greedy_sound in H as (xs & rest & -> & Hxs & H).
    exists xs, rest, cs. repeat split; [now constructor|exact H].
  - apply exactly_sound in H as (xs & rest & -> & Hn & Hxs & H).
    exists xs, rest, cs. repeat split; [now constructor|exact H].
  - apply IH in H as (xs & rest & cs' & -> & Hd & H).
    exists xs, rest, ((i, xs) :: cs').
    repeat split; [now constructor|].
    replace (pos + length xs - pos) with (length xs + 0) in H by lia.
    now rewrite firstn_app_2, app_nil_r in H.
  - destruct pos; [|discriminate]. cbn in H.
    exists [], s, cs. repeat split; [constructor|exact H].
  - destruct s; [|discriminate].
    exists [], [], cs. cbn. rewrite Nat.add_0_r.
    repeat split; [constructor|exact H].
Qed.

(** A pattern without capturing parentheses leaves the captures alone. *)
Lemma denote_no_group (r : regex) pos xs rest cs cs' :
  denote r pos xs rest cs cs' -> ngroups r = 0 -> cs' = cs.
Proof.
  induction 1; cbn [ngroups]; intros Hg; try reflexivity; try discriminate.
  rewrite IHdenote2, IHdenote1 by lia. reflexivity.
Qed.

(** *** The first match in backtracking order *)

Lemma firstMatch_empty pos rest cs : firstMatch Empty pos [] rest cs cs.
Proof. intros R k res H. cbn in *. now rewrite Nat.add_0_r in H. Qed.

Lemma firstMatch_atom c x pos rest cs :
  cmatch c x = true -> firstMatch (Atom c) pos [x] rest cs cs.
Proof.
  intros Hx R k res H. cbn [m app]. rewrite Hx.
  cbn in H. now rewrite Nat.add_1_r in H.
Qed.

Lemma firstMatch_seq r1 r2 pos xs ys rest cs cs1 cs2 :
  firstMatch r1 pos xs (ys ++ rest) cs cs1 ->
  firstMatch r2 (pos + length xs) ys rest cs1 cs2 ->
  firstMatch (Seq r1 r2) pos (xs ++ ys) rest cs cs2.
Proof.
  intros H1 H2 R k res H. cbn [m]. rewrite <- app_assoc.
  apply H1, H2. now rewrite length_app, Nat.add_assoc in H.
Qed.

Lemma greedy_first (R : Type) (c : cclass) (rest : jsstring) :
  stops c rest = true ->
  forall xs pos (k : jsstring -> nat -> option R) res,
    forallb (cmatch c) xs = true ->
    k rest (pos + length xs) = Some res ->
    greedy c (xs ++ rest) pos k = Some res.
Proof.
  intros Hstop. induction xs as [|x xs IH]; intros pos k res Hxs Hk.
  - cbn in Hk. rewrite Nat.add_0_r in Hk. cbn [app].
    destruct rest as [|y rest]; cbn [greedy]; [exact Hk|].
    cbn in Hstop. apply negb_true_iff in Hstop. now rewrite Hstop.
  - cbn in Hxs. apply andb_prop in Hxs as [Hx Hxs].
    cbn [app greedy]. rewrite Hx.
    rewrite (IH (S pos) k res Hxs); [reflexivity|].
    cbn in Hk. now rewrite Nat.add_succ_r in Hk.
Qed.

Lemma firstMatch_star c pos xs rest cs :
  forallb (cmatch c) xs = true -> stops c rest = true ->
  firstMatch (Star c) pos xs rest cs cs.
Proof.
  intros Hxs Hstop R k res H. cbn [m].
  now apply greedy_first.
Qed.

Lemma firstMatch_plus c pos xs rest cs :
  xs <> [] -> forallb (cmatch c) xs = true -> stops c rest = true ->
  firstMatch (Plus c) pos xs rest cs cs.
Proof.
  intros Hne Hxs Hstop. destruct xs as [|x xs]; [congruence|].
  cbn in Hxs. apply andb_prop in Hxs as [Hx Hxs].
  change (x :: xs) with ([x] ++ xs).
  apply firstMatch_seq with (cs1 := cs).
  - now apply firstMatch_atom.
  - now apply firstMatch_star.
Qed.

Lemma firstMatch_repeat c n pos xs rest cs :
  length xs = n -> forallb (cmatch c) xs = true ->
  firstMatch (Repeat c n) pos xs rest cs cs.
Proof.
  intros Hn Hxs R k res H. cbn [m]. subst n.
  revert pos H. induction xs as [|x xs IH]; intros pos H.
  - cbn in *. now rewrite Nat.add_0_r in H.
  - cbn in Hxs. apply andb_prop in Hxs as [Hx Hxs].
    cbn [length exactly app]. rewrite Hx. apply IH; [exact Hxs|].
    cbn in H. now rewrite Nat.add_succ_r in H.
Qed.

Lemma firstMatch_group i r pos xs rest cs cs' :
  firstMatch r pos xs rest cs cs' ->
  firstMatch (Group i r) pos xs rest cs ((i, xs) :: cs').
Proof.
  intros Hr R k res H. cbn [m]. apply Hr.
  replace (pos + length xs - pos) with (length xs + 0) by lia.
  now rewrite firstn_app_2, app_nil_r.
Qed.

Lemma firstMatch_bol rest cs : firstMatch Bol 0 [] rest cs cs.
Proof. intros R k res H. exact H. Qed.

Lemma firstMatch_eol pos cs : firstMatch Eol pos [] [] cs cs.
Proof. intros R k res H. cbn in *. now rewrite Nat.add_0_r in H. Qed.

(** *** [exec] on an anchored pattern *)

Lemma execFrom_anchored (r : regex) : forall s i,
  i <> 0 -> execFrom (Seq Bol r) s i = None.
Proof.
  induction s as [|x s IH]; intros i Hi;
    (destruct i as [|i]; [congruence|]); cbn; [reflexivity|].
  now apply IH.
Qed.

Lemma exec_anchored (r : regex) (s : jsstring) :
  exec (Seq Bol r) s =
  match m (Seq Bol r) s 0 [] (fun _ e cs => Some (e, cs)) with
  | Some (e, cs) => Some (matchArray (Seq Bol r) s 0 e cs)
  | None => None
  end.
Proof.
  unfold exec. destruct s as [|x s]; cbn [execFrom];
    destruct (m (Seq Bol r) _ 0 [] _) as [[e cs]|]; try reflexivity.
  now apply execFrom_anchored.
Qed.

Lemma ngroups_literal (s : jsstring) : ngroups (literal s) = 0.
Proof. induction s as [|c s IH]; [reflexivity|exact IH]. Qed.

Lemma ngroups_anyTimes (n : Z) : ngroups (anyTimes n) = 0.
Proof.
  unfold anyTimes. destruct (0 <=? n)%Z; [reflexivity|].
  cbn [ngroups]. apply ngroups_literal.
Qed.

Lemma ngroups_psEntry (u c : Z) : ngroups (psEntry u c) = 4.
Proof.
  unfold psEntry. cbn [seqs ngroups Plus].
  now rewrite !ngroups_anyTimes.
Qed.

Lemma denote_plus_inv c pos xs rest cs cs' :
  denote (Plus c) pos xs rest cs cs' ->
  xs <> [] /\ forallb (cmatch c) xs = true /\ cs' = cs.
Proof.
  unfold Plus. intros H. inv H.
  match goal with H : denote (Atom _) _ _ _ _ _ |- _ => inv H end.
  match goal with H : denote (Star _) _ _ _ _ _ |- _ => inv H end.
  cbn [app forallb]. repeat split; [discriminate|].
  now apply andb_true_intro.
Qed.

Lemma exec_psEntry_inv (u c : Z) (line : jsstring) matches :
  exec (psEntry u c) line = Some matches -> psMatch u c line matches.
Proof.
  intros H. pose proof (ngroups_psEntry u c) as Hg.
  unfold psEntry in *. cbn [seqs] in *.
  rewrite exec_anchored in H.
  match type of H with
  | match ?t with _ => _ end = _ => destruct t as [[e cs]|] eqn:Em
  end; [|discriminate].
  inv H. apply m_sound in Em as (xs & rest & cs' & -> & Hd & Hk).
  inv Hk. unfold matchArray. rewrite Hg. clear Hg.
  repeat match goal with
         | H : denote (Seq _ _) _ _ _ _ _ |- _ => inv H
         | H : denote (Group _ _) _ _ _ _ _ |- _ => inv H
         | H : denote (Star _) _ _ _ _ _ |- _ => inv H
         | H : denote Bol _ _ _ _ _ |- _ => inv H
         | H : denote Eol _ _ _ _ _ |- _ => inv H
         | H : denote Empty _ _ _ _ _ |- _ => inv H
         | H : denote (Plus _) _ _ _ _ _ |- _ =>
             apply denote_plus_inv in H as (? & ? & ->)
         | H : denote (anyTimes ?n) _ _ _ ?a ?b |- _ =>
             assert (b = a)
               by exact (denote_no_group _ _ _ _ _ _ H (ngroups_anyTimes n));
             subst b;
             assert (matchedBy (anyTimes n) _) by (do 4 eexists; exact H);
             clear H
         | H : [] = [] ++ _ |- _ => cbn [app] in H; subst
         end.
  cbn [seq map capture Nat.eqb].
  rewrite Nat.sub_0_r, !app_nil_r, firstn_all. cbn [app].
  now constructor.
Qed.

Lemma anyTimes_nonneg (n : Z) :
  (0 <= n)%Z -> anyTimes n = Repeat ClassAny (Z.to_nat n).
Proof.
  intros H. unfold anyTimes. apply Z.leb_le in H. now rewrite H.
Qed.

Lemma matchedBy_anyTimes (n : Z) (f : jsstring) :
  (0 <= n)%Z -> matchedBy (anyTimes n) f ->
  length f = Z.to_nat n /\ noLineTerminator f = true.
Proof.
  intros Hn (pos & rest & cs & cs' & H).
  rewrite anyTimes_nonneg in H by exact Hn. inv H. now split.
Qed.

Lemma stops_space_nonspace (s rest : jsstring) :
  s <> [] -> noLeadingSpace s = true -> stops ClassSpace (s ++ rest) = true.
Proof. destruct s as [|x s]; [congruence|]. intros _ H. exact H. Qed.

Lemma stops_space_digits (s rest : jsstring) :
  s <> [] -> allDigits s = true -> stops ClassSpace (s ++ rest) = true.
Proof.
  destruct s as [|x s]; [congruence|]. intros _ H.
  cbn in H. apply andb_prop in H as [H _].
  cbn. now rewrite (digit_not_space _ H).
Qed.

Lemma stops_digit_spaces (s rest : jsstring) :
  s <> [] -> forallb isSpace s = true -> stops ClassDigit (s ++ rest) = true.
Proof.
  destruct s as [|x s]; [congruence|]. intros _ H.
  cbn in H. apply andb_prop in H as [H _]. cbn.
  destruct (isDigit x) eqn:E; [|reflexivity].
  apply digit_not_space in E. congruence.
Qed.

(** On a line laid out in columns whose fields start with a visible
    character, the first match is the column-wise one. *)
Lemma exec_psEntry_layout (u c : Z) ws0 ds ws1 f2 ws2 f3 ws3 f4 :
  (1 <= u)%Z -> (1 <= c)%Z ->
  forallb isSpace ws0 = true ->
  ds <> [] -> allDigits ds = true ->
  ws1 <> [] -> forallb isSpace ws1 = true ->
  length f2 = Z.to_nat (u - 1) -> noLineTerminator f2 = true ->
  f2 <> [] -> noLeadingSpace f2 = true ->
  ws2 <> [] -> forallb isSpace ws2 = true ->
  length f3 = Z.to_nat (c - 1) -> noLineTerminator f3 = true ->
  f3 <> [] -> noLeadingSpace f3 = true ->
  ws3 <> [] -> forallb isSpace ws3 = true ->
  noLineTerminator f4 = true -> noLeadingSpace f4 = true ->
  exec (psEntry u c) (ws0 ++ ds ++ ws1 ++ f2 ++ ws2 ++ f3 ++ ws3 ++ f4) =
  Some [ Some (ws0 ++ ds ++ ws1 ++ f2 ++ ws2 ++ f3 ++ ws3 ++ f4);
         Some ds; Some f2; Some f3; Some f4 ].
Proof.
  intros Hu Hc Hws0 Hds Hdig Hws1 Hsp1 Hl2 Hlt2 Hne2 Hns2
         Hws2 Hsp2 Hl3 Hlt3 Hne3 Hns3 Hws3 Hsp3 Hlt4 Hns4.
  set (line := ws0 ++ ds ++ ws1 ++ f2 ++ ws2 ++ f3 ++ ws3 ++ f4).
  assert (F : firstMatch (psEntry u c) 0
                ([] ++ ws0 ++ ds ++ ws1 ++ f2 ++ ws2 ++ f3 ++ ws3 ++ f4
                    ++ [] ++ []) []
                [] [(4, f4); (3, f3); (2, f2); (1, ds)]).
  { unfold psEntry. cbn [seqs].
    rewrite !anyTimes_nonneg by lia.
    apply firstMatch_seq with (cs1 := []); [apply firstMatch_bol|].
    apply firstMatch_seq with (cs1 := []).
    { apply firstMatch_star; [exact Hws0|]. rewrite app_nil_r.
      now apply stops_space_digits. }
    apply firstMatch_seq with (cs1 := [(1, ds)]).
    { apply firstMatch_group, firstMatch_plus; trivial.
      rewrite app_nil_r. now apply stops_digit_spaces. }
    apply firstMatch_seq with (cs1 := [(1, ds)]).
    { apply firstMatch_plus; trivial.
      rewrite app_nil_r. now apply stops_space_nonspace. }
    apply firstMatch_seq with (cs1 := [(2, f2); (1, ds)]).
    { now apply firstMatch_group, firstMatch_repeat. }
    apply firstMatch_seq with (cs1 := [(2, f2); (1, ds)]).
    { apply firstMatch_plus; trivial.
      rewrite app_nil_r. now apply stops_space_nonspace. }
    apply firstMatch_seq with (cs1 := [(3, f3); (2, f2); (1, ds)]).
    { now apply firstMatch_group, firstMatch_repeat. }
    apply firstMatch_seq with (cs1 := [(3, f3); (2, f2); (1, ds)]).
    { apply firstMatch_plus; trivial.
      rewrite !app_nil_r. destruct f4; [reflexivity|exact Hns4]. }
    apply firstMatch_seq
      with (cs1 := [(4, f4); (3, f3); (2, f2); (1, ds)]).
    { apply firstMatch_group, firstMatch_star; [exact Hlt4|reflexivity]. }
    apply firstMatch_seq
      with (cs1 := [(4, f4); (3, f3); (2, f2); (1, ds)]).
    - apply firstMatch_eol.
    - apply firstMatch_empty. }
  cbn [app] in F. rewrite !app_nil_r in F. fold line in F.
  pose proof (ngroups_psEntry u c) as Hg.
  unfold psEntry in *. cbn [seqs] in *. rewrite exec_anchored.
  specialize (F _ (fun (_ : jsstring) e cs => Some (e, cs)) _ eq_refl).
  rewrite app_nil_r in F. rewrite F.
  unfold matchArray. rewrite Hg. cbn [seq map capture Nat.eqb].
  cbn [Nat.add]. now rewrite Nat.sub_0_r, firstn_all.
Qed.

End MatcherFacts.

(* ===================================================================== *)
(** ** Facts about the line parser                                        *)
(* ===================================================================== *)

Section ParserFacts.

Lemma psMatch_fields (u c : Z) line matches :
  psMatch u c line matches ->
  length matches = 5 /\
  exists g1 g2 g3 g4,
    matches = [Some line; Some g1; Some g2; Some g3; Some g4] /\
    psFields matches =
    Normal {| pidText := trim g1; username := trim g2;
              executable := trim g3; cmdline := trim g4 |}.
Proof.
  intros H. destruct H. split; [reflexivity|].
  now exists ds, f2, f3, f4.
Qed.

(** The guarded branch is taken exactly on a structural match. *)
Lemma parsedFields_inv (line : jsstring) (u c : Z) (f : PsFields) :
  parsedFields line u c = Normal (Some f) ->
  exists matches,
    exec (psEntry u c) line = Some matches /\
    psMatch u c line matches /\
    psFields matches = Normal f.
Proof.
  unfold parsedFields. intros H.
  destruct (exec (psEntry u c) line) as [matches|] eqn:E; [|discriminate].
  pose proof (exec_psEntry_inv _ _ _ _ E) as Hm.
  destruct (psMatch_fields _ _ _ _ Hm) as (Hlen & g1 & g2 & g3 & g4 & -> & Hf).
  cbn [length Nat.eqb] in H. rewrite Hf in *. cbn [bind] in H.
  exists [Some line; Some g1; Some g2; Some g3; Some g4].
  repeat split; trivial. congruence.
Qed.

Lemma parsedFields_total (line : jsstring) (u c : Z) :
  exists o, parsedFields line u c = Normal o.
Proof.
  unfold parsedFields.
  destruct (exec (psEntry u c) line) as [matches|] eqn:E; [|now eexists].
  pose proof (exec_psEntry_inv _ _ _ _ E) as Hm.
  destruct (psMatch_fields _ _ _ _ Hm) as (Hlen & g1 & g2 & g3 & g4 & -> & Hf).
  cbn [length Nat.eqb]. rewrite Hf. now eexists.
Qed.

(** The parser never throws. *)
Lemma parseLineFromPs_total (line : jsstring) (u c : Z) :
  exists o, parseLineFromPs line u c = Normal o.
Proof.
  unfold parseLineFromPs.
  destruct (parsedFields_total line u c) as [o ->]. now eexists.
Qed.

Lemma parseLineFromPs_inv (line : jsstring) (u c : Z) (it : ProcessItem) :
  parseLineFromPs line u c = Normal (Some it) ->
  exists f, parsedFields line u c = Normal (Some f) /\ it = processItem f.
Proof.
  unfold parseLineFromPs.
  destruct (parsedFields_total line u c) as [[f|] ->]; cbn; intros H;
    [|discriminate].
  exists f. split; congruence.
Qed.

Lemma parseLineFromPs_fields (line : jsstring) (u c : Z) (f : PsFields) :
  parsedFields line u c = Normal (Some f) ->
  parseLineFromPs line u c = Normal (Some (processItem f)).
Proof. unfold parseLineFromPs. now intros ->. Qed.

(** What the four constants are on a structural match. *)
Lemma parsedFields_match (line : jsstring) (u c : Z) g0 g1 g2 g3 g4 :
  exec (psEntry u c) line =
    Some [Some g0; Some g1; Some g2; Some g3; Some g4] ->
  parsedFields line u c =
    Normal (Some {| pidText := trim g1; username := trim g2;
                    executable := trim g3; cmdline := trim g4 |}).
Proof. unfold parsedFields. now intros ->. Qed.

(** A line that matches is at least as long as the fixed columns. *)
Lemma psMatch_length (u c : Z) line matches :
  (1 <= u)%Z -> (1 <= c)%Z -> psMatch u c line matches ->
  (u + c + 2 <= Z.of_nat (length line))%Z.
Proof.
  intros Hu Hc H. destruct H as [ws0 ds ws1 f2 ws2 f3 ws3 f4
    _ Hds _ Hws1 _ Hf2 Hws2 _ Hf3 Hws3 _ _].
  apply matchedBy_anyTimes in Hf2 as [Hf2 _]; [|lia].
  apply matchedBy_anyTimes in Hf3 as [Hf3 _]; [|lia].
  rewrite !length_app, Hf2, Hf3.
  destruct ds; [congruence|]. destruct ws1; [congruence|].
  destruct ws2; [congruence|]. destruct ws3; [congruence|].
  cbn [length]. lia.
Qed.

End ParserFacts.

(* ===================================================================== *)
(** ** Facts about the lister                                             *)
(* ===================================================================== *)

Section ListerFacts.

Lemma split_nonempty (sep : char) (s : jsstring) :
  exists first others, split sep s = first :: others.
Proof.
  induction s as [|x s (h & t & IH)]; cbn [split]; [now eexists; eexists|].
  destruct (x =? sep)%N; [now eexists; eexists|].
  rewrite IH. now eexists; eexists.
Qed.

(** The text before the first separator is the first element. *)
Lemma split_first (sep : char) (header body : jsstring) :
  forallb (fun x => negb (x =? sep)%N) header = true ->
  split sep (header ++ sep :: body) = header :: split sep body.
Proof.
  induction header as [|x header IH]; cbn [app split forallb]; intros H.
  - now rewrite N.eqb_refl.
  - apply andb_prop in H as [Hx H]. apply negb_true_iff in Hx.
    now rewrite Hx, (IH H).
Qed.

Lemma parsedLines_cons (line : jsstring) (lines : list jsstring) :
  parsedLines (line :: lines) =
  (if truthy line then parsedLine line else []) ++ parsedLines lines.
Proof.
  unfold parsedLines. cbn [filter].
  destruct (truthy line); reflexivity.
Qed.

(** The loop visits the lines from index [length seen] on, in order. *)
Lemma attachLoop_spec (todo : list jsstring) :
  forall seen acc,
    attachLoop (seen ++ todo) (length todo) (length seen) acc =
    Normal (acc ++ parsedLines todo).
Proof.
  induction todo as [|line todo IH]; intros seen acc.
  - cbn. now rewrite app_nil_r.
  - cbn [length attachLoop]. rewrite nth_middle, parsedLines_cons.
    assert (Hnext : forall acc',
      attachLoop (seen ++ line :: todo) (length todo) (S (length seen)) acc'
      = Normal (acc' ++ parsedLines todo)).
    { intros acc'. specialize (IH (seen ++ [line]) acc').
      rewrite <- app_assoc, length_app, Nat.add_1_r in IH. exact IH. }
    destruct (truthy line); [|apply Hnext].
    unfold parsedLine.
    destruct (parseLineFromPs_total line usernameCharacters
                commandCharacters) as [[entry|] ->]; cbn [bind].
    + rewrite Hnext, <- app_assoc. reflexivity.
    + apply Hnext.
Qed.

Lemma includes_truthy (s p : jsstring) :
  p <> [] -> includes s p = true -> truthy s = true.
Proof.
  destruct s as [|x s]; [|reflexivity].
  destruct p as [|y p]; [congruence|]. intros _ H. cbn in H. discriminate.
Qed.

Lemma bogus_nonempty : str "screen size is bogus" <> [].
Proof. cbv. discriminate. Qed.

(** The lister once the diagnostic check has let the output through. *)
Lemma getAttachItems_pass (r : ExecResult) :
  (error r = None /\ stderr r = []) \/
  includes (stderr r) (str "screen size is bogus") = true ->
  getAttachItems (Resolved r) =
  Normal (parsedLines (tl (split 10%N (stdout r)))).
Proof.
  intros H. unfold getAttachItems. cbn [await bind].
  assert (Hguard :
    (if isSome (error r) || truthy (stderr r)
     then if truthy (stderr r)
             && includes (stderr r) (str "screen size is bogus")
          then Normal tt
          else Throw (Error (str "Unable to select process to attach to: "
                             ++ stderr r))
     else Normal tt) = Normal tt).
  { destruct H as [[-> ->]|H]; [reflexivity|].
    rewrite H, (includes_truthy _ _ bogus_nonempty H).
    now rewrite orb_true_r. }
  rewrite Hguard.
  destruct (split_nonempty 10%N (stdout r)) as (h & t & ->).
  cbn [length tl Nat.sub]. rewrite Nat.sub_0_r.
  exact (attachLoop_spec t [h] []).
Qed.

(** The lister once the diagnostic check has stopped it. *)
Lemma getAttachItems_fail (r : ExecResult) :
  (stderr r <> [] \/ error r <> None) ->
  includes (stderr r) (str "screen size is bogus") = false ->
  getAttachItems (Resolved r) =
  Throw (Error (str "Unable to select process to attach to: " ++ stderr r)).
Proof.
  intros H Hinc. unfold getAttachItems. cbn [await bind].
  rewrite Hinc, andb_false_r.
  assert (Hc : isSome (error r) || truthy (stderr r) = true).
  { destruct H as [H|H].
    - destruct (stderr r); [congruence|apply orb_true_r].
    - destruct (error r); [reflexivity|congruence]. }
  now rewrite Hc.
Qed.

(** Every listed item was built from the fields of some output line. *)
Lemma getAttachItems_items ps (items : list ProcessItem) (it : ProcessItem) :
  getAttachItems ps = Normal items -> In it items ->
  exists line f,
    parsedFields line usernameCharacters commandCharacters
      = Normal (Some f) /\ it = processItem f.
Proof.
  intros H Hin. destruct ps as [r|e]; [|discriminate].
  assert (Hpass : getAttachItems (Resolved r) =
                  Normal (parsedLines (tl (split 10%N (stdout r))))).
  { destruct (includes (stderr r) (str "screen size is bogus")) eqn:Ei.
    - apply getAttachItems_pass. now right.
    - destruct (error r) as [e|] eqn:Ee.
      { rewrite getAttachItems_fail in H; [discriminate| |exact Ei].
        right. congruence. }
      destruct (truthy (stderr r)) eqn:Et.
      + rewrite getAttachItems_fail in H; [discriminate| |exact Ei].
        left. intros E. rewrite E in Et. discriminate.
      + apply getAttachItems_pass. left. split; [exact Ee|].
        destruct (stderr r); [reflexivity|discriminate]. }
  rewrite Hpass in H. inversion H; subst items. clear H.
  unfold parsedLines in Hin. apply in_flat_map in Hin as (line & _ & Hin).
  unfold parsedLine in Hin.
  destruct (parseLineFromPs line usernameCharacters commandCharacters)
    as [[entry|]|e] eqn:Ep; cbn in Hin; try contradiction.
  destruct Hin as [->|[]].
  apply parseLineFromPs_inv in Ep as (f & Hf & ->). now exists line, f.
Qed.

End ListerFacts.

(* ===================================================================== *)
(** ** Properties of the line parser                                      *)
(* ===================================================================== *)

(** C4. With the widths 20 and 50 the worked example line parses to the
    record with pid 1, user name [root], executable [systemd] and command
    line [/sbin/init]; the item carries the label [root:systemd], the
    description [1] and the detail [/sbin/init]. *)
Theorem parseLineFromPs_example :
  parsedFields exampleLine 20 50 =
    Normal (Some {| pidText := str "1"; username := str "root";
                    executable := str "systemd";
                    cmdline := str "/sbin/init" |}) /\
  parseLineFromPs exampleLine 20 50 =
    Normal (Some {| pid := Fin 1; label := str "root:systemd";
                    description := str "1"; detail := str "/sbin/init" |}).
Proof. split; vm_compute; reflexivity. Qed.

(** C9, as the code has it. For positive widths, every record returned by
    [parseLineFromPs] is built from a user name of at most
    [usernameWidth - 1] characters and an executable of at most
    [commandWidth - 1] characters, and user name, executable and command
    line have no leading and no trailing white space. *)
Theorem parseLineFromPs_fields_bounded
    (line : jsstring) (u c : Z) (it : ProcessItem) :
  (1 <= u)%Z -> (1 <= c)%Z ->
  parseLineFromPs line u c = Normal (Some it) ->
  exists f,
    parsedFields line u c = Normal (Some f) /\ it = processItem f /\
    (Z.of_nat (length (username f)) <= u - 1)%Z /\
    (Z.of_nat (length (executable f)) <= c - 1)%Z /\
    isTrimmed (username f) = true /\
    isTrimmed (executable f) = true /\
    isTrimmed (cmdline f) = true.
Proof.
  intros Hu Hc H.
  apply parseLineFromPs_inv in H as (f & Hf & ->).
  exists f. split; [exact Hf|]. split; [reflexivity|].
  apply parsedFields_inv in Hf as (matches & _ & Hm & Hfields).
  destruct Hm as [ws0 ds ws1 f2 ws2 f3 ws3 f4
    _ _ _ _ _ Hf2 _ _ Hf3 _ _ _].
  apply matchedBy_anyTimes in Hf2 as [Hf2 _]; [|lia].
  apply matchedBy_anyTimes in Hf3 as [Hf3 _]; [|lia].
  cbn in Hfields. inversion Hfields; subst f; clear Hfields.
  cbn [username executable cmdline].
  pose proof (trim_length f2). pose proof (trim_length f3).
  repeat split; try apply trim_isTrimmed; lia.
Qed.

Lemma parseLineFromPs_fields_bounded_witness :
  exists f,
    parsedFields exampleLine 20 50 = Normal (Some f) /\
    {| pid := Fin 1; label := str "root:systemd";
       description := str "1"; detail := str "/sbin/init" |} = processItem f /\
    (Z.of_nat (length (username f)) <= 20 - 1)%Z /\
    (Z.of_nat (length (executable f)) <= 50 - 1)%Z /\
    isTrimmed (username f) = true /\
    isTrimmed (executable f) = true /\
    isTrimmed (cmdline f) = true.
Proof.
  apply (parseLineFromPs_fields_bounded exampleLine 20 50); [lia|lia|].
  vm_compute. reflexivity.
Defined.

(** C9 fails as worded when a width is not positive, which the parser
    does not check. With the width 0 the pattern text is [.{-1}]: the braces
    are literal, a record is returned, and its user name has five
    characters, more than [0 - 1]. *)
Lemma fields_bounded_counterexample :
  parsedFields zeroWidthLine 0 0 =
    Normal (Some {| pidText := str "1"; username := str "a{-1}";
                    executable := str "b{-1}"; cmdline := str "cmd" |}) /\
  parseLineFromPs zeroWidthLine 0 0 =
    Normal (Some {| pid := Fin 1; label := str "a{-1}:b{-1}";
                    description := str "1"; detail := str "cmd" |}) /\
  ~ (Z.of_nat (length (str "a{-1}")) <= 0 - 1)%Z.
Proof.
  split; [|split].
  - vm_compute. reflexivity.
  - vm_compute. reflexivity.
  - vm_compute. intros H. now apply H.
Qed.

(** C10. For every input string and every pair of widths, positive or not,
    [parseLineFromPs] returns a record or the no-match signal and never
    throws; it returns a record exactly when [exec] returns a match array
    whose five entries (the whole match and the four groups) are all
    defined, and the record is built from the four trimmed groups. *)
Theorem parseLineFromPs_total_structural (line : jsstring) (u c : Z) :
  (exists o, parseLineFromPs line u c = Normal o) /\
  (forall it,
     parseLineFromPs line u c = Normal (Some it) <->
     exists g0 g1 g2 g3 g4,
       exec (psEntry u c) line =
         Some [Some g0; Some g1; Some g2; Some g3; Some g4] /\
       it = processItem {| pidText := trim g1; username := trim g2;
                           executable := trim g3; cmdline := trim g4 |}).
Proof.
  split; [apply parseLineFromPs_total|].
  intros it. split.
  - intros H. apply parseLineFromPs_inv in H as (f & Hf & ->).
    apply parsedFields_inv in Hf as (matches & He & Hm & Hfields).
    destruct (psMatch_fields _ _ _ _ Hm) as (_ & g1 & g2 & g3 & g4 & -> & Hf).
    exists line, g1, g2, g3, g4. split; [exact He|]. congruence.
  - intros (g0 & g1 & g2 & g3 & g4 & He & ->).
    apply parseLineFromPs_fields, (parsedFields_match _ _ _ _ _ _ _ _ He).
Qed.

Lemma digit_run_stops (a b : jsstring) :
  allDigits a = true ->
  (match b with [] => true | x :: _ => negb (isDigit x) end) = true ->
  takeWhile isDigit (a ++ b) = a.
Proof.
  intros Ha Hb. induction a as [|x a IH]; cbn [app takeWhile].
  - destruct b as [|y b]; [reflexivity|].
    apply negb_true_iff in Hb. cbn [takeWhile]. now rewrite Hb.
  - cbn in Ha. apply andb_prop in Ha as [Hx Ha]. now rewrite Hx, IH.
Qed.

(** C2, as the code has it. The description of a returned record is the
    digit text matched as the pid: the run of decimal digits that follows
    the leading white space of the line, which is never empty; and the pid
    is the Number value of that text. Description and decimal string form
    of the pid coincide whenever that text is a canonical numeral (no
    superfluous leading zero) of a value below [2^53]. *)
Theorem parseLineFromPs_description
    (line : jsstring) (u c : Z) (it : ProcessItem) :
  parseLineFromPs line u c = Normal (Some it) ->
  description it = takeWhile isDigit (trimStart line) /\
  description it <> [] /\
  allDigits (description it) = true /\
  pid it = Number (description it) /\
  (forall n,
     canonicalDigits (description it) = true ->
     MV 0 (description it) = Some n -> (n < 2 ^ 53)%N ->
     pid it = Fin n /\
     description it = decimal n /\
     forall large, toString large (pid it) = description it).
Proof.
  intros H. apply parseLineFromPs_inv in H as (f & Hf & ->).
  pose proof Hf as Hline.
  apply parsedFields_inv in Hf as (matches & _ & Hm & Hfields).
  destruct Hm as [ws0 ds ws1 f2 ws2 f3 ws3 f4
    Hws0 Hne Hdig Hws1 Hsp1 _ _ _ _ _ _ _].
  cbn in Hfields. inversion Hfields; subst f; clear Hfields.
  cbn [processItem description pid pidText].
  rewrite (trim_digits _ Hdig).
  split.
  { rewrite trimStart_spaces by exact Hws0.
    rewrite trimStart_id.
    - symmetry. apply digit_run_stops; [exact Hdig|].
      destruct ws1 as [|x ws1]; [congruence|]. cbn [app].
      cbn in Hsp1. apply andb_prop in Hsp1 as [Hx _].
      destruct (isDigit x) eqn:E; [|reflexivity].
      apply digit_not_space in E. congruence.
    - destruct ds as [|d ds]; [congruence|]. cbn [app noLeadingSpace].
      cbn in Hdig. apply andb_prop in Hdig as [Hd _].
      now rewrite (digit_not_space _ Hd). }
  split; [exact Hne|]. split; [exact Hdig|]. split; [reflexivity|].
  intros n Hcanon Hmv Hlt.
  assert (Hpid : Number ds = Fin n).
  { unfold Number. rewrite Hmv. now apply toDouble_safe. }
  assert (Hdec : ds = decimal n) by (symmetry; now apply decimal_MV).
  split; [exact Hpid|]. split; [exact Hdec|].
  intros large. rewrite Hpid. cbn [toString].
  apply N.ltb_lt in Hlt. now rewrite Hlt.
Qed.

Lemma parseLineFromPs_description_witness :
  description initItem = takeWhile isDigit (trimStart exampleLine) /\
  description initItem = decimal 1.
Proof.
  destruct (parseLineFromPs_description exampleLine 20 50 initItem eq_refl)
    as (Hrun & _ & _ & _ & Hcanon).
  split; [exact Hrun|].
  apply (Hcanon 1%N); reflexivity.
Defined.

(** C2 fails as worded: on a line whose pid is written [007] the record has
    the pid 7 and the description [007], not the decimal form [7]. *)
Lemma description_counterexample :
  parseLineFromPs zeroPaddedLine 20 50 =
    Normal (Some {| pid := Fin 7; label := str "root:systemd";
                    description := str "007"; detail := str "/sbin/init" |}) /\
  toString noDigits (Fin 7) = str "7" /\
  str "007" <> str "7".
Proof.
  split; [|split].
  - vm_compute. reflexivity.
  - vm_compute. reflexivity.
  - vm_compute. discriminate.
Qed.

Section RoundTrip.

Lemma repeat_snoc (A : Type) (x : A) (k : nat) :
  repeat x (S k) = repeat x k ++ [x].
Proof. cbn [repeat]. apply repeat_cons. Qed.

Lemma spaces_noLineTerminator (k : nat) :
  noLineTerminator (repeat 32%N k) = true.
Proof. induction k; [reflexivity|exact IHk]. Qed.

Lemma isTrimmed_noLeadingSpace (s : jsstring) :
  isTrimmed s = true -> noLeadingSpace s = true.
Proof. unfold isTrimmed. intros H. now apply andb_prop in H as [H _]. Qed.

(** A text shorter than its column, padded to the column and followed by
    the separator: the capture of all but the last column character, then
    two spaces. *)
Lemma padEnd_column (s rest : jsstring) (w : nat) :
  length s < w ->
  padEnd s w ++ str " " ++ rest =
  (s ++ repeat 32%N (w - 1 - length s)) ++ [32%N; 32%N] ++ rest.
Proof.
  intros H. unfold padEnd.
  replace (w - length s) with (S (w - 1 - length s)) by lia.
  rewrite repeat_snoc, <- !app_assoc. reflexivity.
Qed.

Lemma syntheticLine_layout (pidWidth : nat) (r : ProcessRecord) (u c : Z) :
  (Z.of_nat (length (r_username r)) <= u - 1)%Z ->
  (Z.of_nat (length (r_executable r)) <= c - 1)%Z ->
  syntheticLine pidWidth r u c =
  repeat 32%N (pidWidth - length (decimal (r_pid r)))
  ++ decimal (r_pid r) ++ [32%N]
  ++ (r_username r
      ++ repeat 32%N (Z.to_nat u - 1 - length (r_username r)))
  ++ [32%N; 32%N]
  ++ (r_executable r
      ++ repeat 32%N (Z.to_nat c - 1 - length (r_executable r)))
  ++ [32%N; 32%N] ++ r_commandLine r.
Proof.
  intros Hu Hc. unfold syntheticLine, padStart.
  rewrite <- app_assoc. do 2 f_equal.
  change (str " " ++ ?x) with ([32%N] ++ x). f_equal.
  rewrite padEnd_column by lia. do 2 f_equal.
  rewrite padEnd_column by lia. reflexivity.
Qed.

(** A padded field is what the pattern expects of a column: the right
    length, no line terminator, and a visible first character. *)
Lemma padded_field (s : jsstring) (w : Z) :
  s <> [] -> isTrimmed s = true -> noLineTerminator s = true ->
  (Z.of_nat (length s) <= w - 1)%Z ->
  length (s ++ repeat 32%N (Z.to_nat w - 1 - length s)) = Z.to_nat (w - 1) /\
  noLineTerminator (s ++ repeat 32%N (Z.to_nat w - 1 - length s)) = true /\
  s ++ repeat 32%N (Z.to_nat w - 1 - length s) <> [] /\
  noLeadingSpace (s ++ repeat 32%N (Z.to_nat w - 1 - length s)) = true.
Proof.
  intros Hne Htrim Hlt Hlen. repeat split.
  - rewrite length_app, repeat_length. lia.
  - unfold noLineTerminator. rewrite forallb_app.
    apply andb_true_intro. split; [exact Hlt|apply spaces_noLineTerminator].
  - destruct s; [congruence|discriminate].
  - destruct s; [congruence|]. now apply isTrimmed_noLeadingSpace in Htrim.
Qed.

End RoundTrip.

(** C3, as the code has it. Let a record have a pid below [2^53], a
    non-empty user name and a non-empty executable, the three texts trimmed
    and free of line terminators, the user name at most
    [usernameWidth - 1] and the executable at most [commandWidth - 1]
    characters long. Parsing its synthetic line, whatever the width of the
    pid column, recovers pid, user name, executable and command line. *)
Theorem parseLineFromPs_roundtrip
    (pidWidth : nat) (r : ProcessRecord) (u c : Z) :
  (r_pid r < 2 ^ 53)%N ->
  r_username r <> [] -> r_executable r <> [] ->
  trimmedAndFits r u c = true ->
  noLineTerminator (r_username r) = true ->
  noLineTerminator (r_executable r) = true ->
  noLineTerminator (r_commandLine r) = true ->
  parsedFields (syntheticLine pidWidth r u c) u c =
    Normal (Some {| pidText := decimal (r_pid r);
                    username := r_username r;
                    executable := r_executable r;
                    cmdline := r_commandLine r |}) /\
  parseLineFromPs (syntheticLine pidWidth r u c) u c =
    Normal (Some (itemOf r)).
Proof.
  intros Hpid Hune Hxne Hdom Hult Hxlt Hclt.
  unfold trimmedAndFits in Hdom.
  apply andb_prop in Hdom as [Hdom Hxlen].
  apply andb_prop in Hdom as [Hdom Hulen].
  apply andb_prop in Hdom as [Hdom Hctrim].
  apply andb_prop in Hdom as [Hutrim Hxtrim].
  apply Z.leb_le in Hulen, Hxlen.
  destruct (padded_field _ u Hune Hutrim Hult Hulen) as (Hu1 & Hu2 & Hu3 & Hu4).
  destruct (padded_field _ c Hxne Hxtrim Hxlt Hxlen) as (Hx1 & Hx2 & Hx3 & Hx4).
  assert (Hfields :
    parsedFields (syntheticLine pidWidth r u c) u c =
    Normal (Some {| pidText := decimal (r_pid r);
                    username := r_username r;
                    executable := r_executable r;
                    cmdline := r_commandLine r |})).
  { rewrite syntheticLine_layout by assumption.
    erewrite parsedFields_match.
    2:{ apply exec_psEntry_layout; trivial.
        - lia.
        - lia.
        - apply spaces_isSpace.
        - apply decimal_nonempty.
        - apply decimal_allDigits.
        - discriminate.
        - discriminate.
        - discriminate.
        - now apply isTrimmed_noLeadingSpace. }
    rewrite (trim_digits _ (decimal_allDigits _)).
    rewrite !trim_padded by assumption.
    now rewrite (trim_id _ Hctrim). }
  split; [exact Hfields|].
  rewrite (parseLineFromPs_fields _ _ _ _ Hfields).
  unfold processItem, itemOf. cbn [pidText username executable cmdline].
  now rewrite Number_decimal.
Qed.

Lemma parseLineFromPs_roundtrip_witness :
  syntheticLine 5 initRecord 20 50 = exampleLine /\
  parseLineFromPs (syntheticLine 5 initRecord 20 50) 20 50 =
    Normal (Some (itemOf initRecord)).
Proof.
  split; [vm_compute; reflexivity|].
  apply (parseLineFromPs_roundtrip 5 initRecord 20 50);
    solve [reflexivity | discriminate].
Defined.

(** C3 fails as worded. A record without a command name is trimmed and
    fits, yet its synthetic line parses to another record: the greedy white
    space before the third group runs into the empty column, and the group
    takes the head of the arguments. A record whose arguments contain a
    carriage return is trimmed and fits, yet its synthetic line does not
    match at all: [.] stops at a line terminator. *)
Lemma roundtrip_counterexample :
  (trimmedAndFits namelessRecord 20 50 = true /\
   parseLineFromPs (syntheticLine 5 namelessRecord 20 50) 20 50 =
     Normal (Some {| pid := Fin 1;
                     label := str "root:" ++ repeat 120%N 48;
                     description := str "1";
                     detail := str "y" |}) /\
   itemOf namelessRecord =
     {| pid := Fin 1; label := str "root:"; description := str "1";
        detail := repeat 120%N 48 ++ str " y" |}) /\
  (trimmedAndFits carriageReturnRecord 20 50 = true /\
   parseLineFromPs (syntheticLine 5 carriageReturnRecord 20 50) 20 50 =
     Normal None).
Proof.
  split; [split; [|split]|split]; vm_compute; reflexivity.
Qed.

(** Beyond the safe integers the pid goes through the rounding of
    [Number]: the line written for 2^53 + 1 comes back with the pid 2^53. *)
Remark large_pid_rounded :
  parseLineFromPs
    (syntheticLine 5 {| r_pid := 9007199254740993; r_username := str "root";
                        r_executable := str "sh"; r_commandLine := str "ls" |}
                   20 50) 20 50 =
  Normal (Some {| pid := Fin 9007199254740992; label := str "root:sh";
                  description := str "9007199254740993";
                  detail := str "ls" |}).
Proof. vm_compute. reflexivity. Qed.

(** A user name that fills its column of 20 entirely leaves no white space
    after the 19 captured characters: the line does not match. *)
Remark wide_name_no_match :
  length (r_username wideNameRecord) = 20 /\
  parseLineFromPs (syntheticLine 5 wideNameRecord 20 50) 20 50 = Normal None.
Proof. split; vm_compute; reflexivity. Qed.

(* ===================================================================== *)
(** ** Properties of the lister                                           *)
(* ===================================================================== *)

(** C6. Once the diagnostic check is passed, the lister returns, for every
    output, the records of the non-empty lines after the first that parse,
    in the order of their lines; lines that do not match and empty lines
    leave no trace. The first line is dropped whatever it contains: the
    result depends only on the text after the first line feed. *)
Theorem getAttachItems_parsed_lines (r : ExecResult) :
  (error r = None /\ stderr r = []) \/
  includes (stderr r) (str "screen size is bogus") = true ->
  getAttachItems (Resolved r) =
    Normal (parsedLines (tl (split 10%N (stdout r)))) /\
  (forall header body,
     stdout r = header ++ 10%N :: body ->
     forallb (fun x => negb (x =? 10)%N) header = true ->
     getAttachItems (Resolved r) = Normal (parsedLines (split 10%N body))).
Proof.
  intros H. pose proof (getAttachItems_pass r H) as Hp.
  split; [exact Hp|].
  intros header body Hout Hh. rewrite Hp, Hout, split_first by exact Hh.
  reflexivity.
Qed.

Lemma getAttachItems_parsed_lines_witness :
  getAttachItems (psOutput [headerLine; exampleLine; []; line42] []) =
  Normal [ {| pid := Fin 1; label := str "root:systemd";
              description := str "1"; detail := str "/sbin/init" |};
           {| pid := Fin 42; label := str "root:systemd";
              description := str "42"; detail := str "/sbin/init" |} ].
Proof.
  refine (eq_trans (proj1 (getAttachItems_parsed_lines _ _)) _).
  - left. split; reflexivity.
  - vm_compute. reflexivity.
Defined.

(** The header would parse as a process if it were not dropped by
    position: a first line in the shape of a process line is dropped all the
    same. *)
Remark first_line_dropped :
  getAttachItems (psOutput [exampleLine; line42] []) =
  Normal [ {| pid := Fin 42; label := str "root:systemd";
              description := str "42"; detail := str "/sbin/init" |} ].
Proof. vm_compute. reflexivity. Qed.

(** C1, as the code has it. When the command exits with status 0, so that
    the promise of [exec] resolves, the lister succeeds, with the parsed
    candidates, whenever the diagnostic text contains [screen size is bogus]
    anywhere, whatever else it contains; on every non-empty diagnostic text
    that does not contain it, the lister throws the error whose message ends
    with that text, although the exit status is success. When the command
    cannot be run or exits with another status, the promise rejects and the
    lister fails with the error of [exec] itself, whatever the diagnostic
    text was. *)
Theorem getAttachItems_diagnostic (r : ExecResult) (e : exn) :
  (includes (stderr r) (str "screen size is bogus") = true ->
   getAttachItems (Resolved r) =
     Normal (parsedLines (tl (split 10%N (stdout r))))) /\
  (stderr r <> [] ->
   includes (stderr r) (str "screen size is bogus") = false ->
   getAttachItems (Resolved r) =
     Throw (Error (str "Unable to select process to attach to: "
                   ++ stderr r))) /\
  getAttachItems (Rejected e) = Throw e.
Proof.
  split; [|split].
  - intros H. apply getAttachItems_pass. now right.
  - intros Hne H. apply getAttachItems_fail; [now left|exact H].
  - reflexivity.
Qed.

Lemma getAttachItems_diagnostic_witness :
  getAttachItems (psOutput [headerLine; exampleLine]
                           (str "screen size is bogus")) =
    Normal (parsedLines [exampleLine; []]) /\
  getAttachItems (psOutput [headerLine; exampleLine]
                           (str "ps: permission denied")) =
    Throw (Error (str "Unable to select process to attach to: "
                  ++ str "ps: permission denied")) /\
  getAttachItems (Rejected commandFailed) = Throw commandFailed.
Proof.
  split; [|split].
  - apply (proj1 (getAttachItems_diagnostic
                    {| error := None;
                       stdout := concat (map (fun l => l ++ newline)
                                             [headerLine; exampleLine]);
                       stderr := str "screen size is bogus" |}
                    commandFailed)).
    vm_compute. reflexivity.
  - apply (proj1 (proj2 (getAttachItems_diagnostic
                    {| error := None;
                       stdout := concat (map (fun l => l ++ newline)
                                             [headerLine; exampleLine]);
                       stderr := str "ps: permission denied" |}
                    commandFailed))).
    + vm_compute. discriminate.
    + vm_compute. reflexivity.
  - apply (proj2 (proj2 (getAttachItems_diagnostic
                    {| error := None; stdout := []; stderr := [] |}
                    commandFailed))).
Defined.

(** C1 fails as worded: the warning that [ps] really prints is a non-empty
    diagnostic text other than [screen size is bogus], and the lister
    succeeds on it. *)
Lemma diagnostic_counterexample :
  bogusWarning <> [] /\
  bogusWarning <> str "screen size is bogus" /\
  getAttachItems (psOutput [headerLine; exampleLine] bogusWarning) =
    Normal [ {| pid := Fin 1; label := str "root:systemd";
                description := str "1"; detail := str "/sbin/init" |} ].
Proof.
  split; [|split].
  - vm_compute. discriminate.
  - vm_compute. discriminate.
  - vm_compute. reflexivity.
Qed.

(* ===================================================================== *)
(** ** Properties of the selector                                         *)
(* ===================================================================== *)

(** C7. When the lister succeeds and the user picks an entry, [pickProcess]
    returns the pid of the entry in decimal, a colon, and the label of the
    entry; an entry of the list has the label [username:executable] of the
    line it was parsed from. For the entry with pid 42 and label
    [root:systemd] the result is [42:root:systemd]. *)
Theorem pickProcess_selected
    (large : N -> jsstring) (ps : promise ExecResult)
    (showQuickPick : list ProcessItem -> option ProcessItem)
    (items : list ProcessItem) (chosen : ProcessItem) :
  getAttachItems ps = Normal items ->
  showQuickPick items = Some chosen ->
  pickProcess large ps showQuickPick =
    Normal (toString large (pid chosen) ++ str ":" ++ label chosen) /\
  (In chosen items ->
   exists line f,
     parsedFields line usernameCharacters commandCharacters
       = Normal (Some f) /\
     label chosen = username f ++ str ":" ++ executable f) /\
  (pid chosen = Fin 42 -> label chosen = str "root:systemd" ->
   pickProcess large ps showQuickPick = Normal (str "42:root:systemd")).
Proof.
  intros Hitems Hpick.
  assert (Hres : pickProcess large ps showQuickPick =
            Normal (toString large (pid chosen) ++ str ":" ++ label chosen)).
  { unfold pickProcess, chooseProcess. rewrite Hitems. cbn [bind].
    rewrite Hpick. reflexivity. }
  split; [exact Hres|]. split.
  - intros Hin.
    destruct (getAttachItems_items _ _ _ Hitems Hin) as (line & f & Hf & ->).
    now exists line, f.
  - intros Hpid Hlabel. rewrite Hres, Hpid, Hlabel. reflexivity.
Qed.

Lemma pickProcess_selected_witness :
  pickProcess noDigits (psOutput [headerLine; line42; exampleLine] [])
              pickFirst
  = Normal (str "42:root:systemd").
Proof.
  refine (proj2 (proj2 (pickProcess_selected noDigits
            (psOutput [headerLine; line42; exampleLine] []) pickFirst
            _ _ _ _)) _ _).
  - vm_compute. reflexivity.
  - reflexivity.
  - reflexivity.
  - reflexivity.
Defined.

(** C8. When the lister succeeds and the user dismisses the quick pick,
    [chooseProcess] throws the error [Process not selected], and so does
    [pickProcess]: neither returns a value. *)
Theorem chooseProcess_dismissed
    (large : N -> jsstring) (ps : promise ExecResult)
    (showQuickPick : list ProcessItem -> option ProcessItem)
    (items : list ProcessItem) :
  getAttachItems ps = Normal items ->
  showQuickPick items = None ->
  chooseProcess ps showQuickPick
    = Throw (Error (str "Process not selected")) /\
  pickProcess large ps showQuickPick
    = Throw (Error (str "Process not selected")).
Proof.
  intros Hitems Hpick.
  assert (Hc : chooseProcess ps showQuickPick
               = Throw (Error (str "Process not selected"))).
  { unfold chooseProcess. rewrite Hitems. cbn [bind]. now rewrite Hpick. }
  split; [exact Hc|]. unfold pickProcess. now rewrite Hc.
Qed.

Lemma chooseProcess_dismissed_witness :
  chooseProcess (psOutput [headerLine; exampleLine] []) dismiss
    = Throw (Error (str "Process not selected")) /\
  pickProcess noDigits (psOutput [headerLine; exampleLine] []) dismiss
    = Throw (Error (str "Process not selected")).
Proof.
  refine (chooseProcess_dismissed noDigits
            (psOutput [headerLine; exampleLine] []) dismiss _ _ _).
  - vm_compute. reflexivity.
  - reflexivity.
Defined.

(* ===================================================================== *)
(** ** Further properties of the line parser                              *)
(* ===================================================================== *)

Section FieldFacts.

Lemma takeWhile_app_stop (p : char -> bool) (a b : jsstring) :
  forallb p a = true ->
  (match b with [] => true | x :: _ => negb (p x) end) = true ->
  takeWhile p (a ++ b) = a.
Proof.
  intros Ha Hb. induction a as [|x a IH]; cbn [app takeWhile].
  - destruct b as [|y b]; [reflexivity|].
    apply negb_true_iff in Hb. cbn [takeWhile]. now rewrite Hb.
  - cbn in Ha. apply andb_prop in Ha as [Hx Ha]. now rewrite Hx, IH.
Qed.

Lemma noLineTerminator_trimStart (s : jsstring) :
  noLineTerminator s = true -> noLineTerminator (trimStart s) = true.
Proof.
  induction s as [|x s IH]; [reflexivity|]. intros H. cbn [trimStart].
  destruct (isSpace x); [|exact H].
  cbn in H. apply andb_prop in H as [_ H]. now apply IH.
Qed.

Lemma noLineTerminator_trim (s : jsstring) :
  noLineTerminator s = true -> noLineTerminator (trim s) = true.
Proof.
  intros H. unfold trim, trimEnd, noLineTerminator.
  rewrite forallb_reverse. apply noLineTerminator_trimStart.
  unfold noLineTerminator. rewrite forallb_reverse.
  now apply noLineTerminator_trimStart.
Qed.

(** The pid text of a match is the run of digits that follows the leading
    white space of the line. *)
Lemma parsedFields_pidText (line : jsstring) (u c : Z) (f : PsFields) :
  parsedFields line u c = Normal (Some f) ->
  pidText f = takeWhile isDigit (trimStart line) /\
  pidText f <> [] /\ allDigits (pidText f) = true /\
  noLineTerminator (cmdline f) = true.
Proof.
  intros H. apply parsedFields_inv in H as (matches & _ & Hm & Hf).
  destruct Hm as [ws0 ds ws1 f2 ws2 f3 ws3 f4
    Hws0 Hne Hdig Hws1 Hsp1 _ _ _ _ _ _ Hlt4].
  cbn in Hf. inversion Hf; subst f; clear Hf.
  cbn [pidText cmdline]. rewrite (trim_digits _ Hdig).
  repeat split; trivial; [|now apply noLineTerminator_trim].
  rewrite trimStart_spaces by exact Hws0.
  rewrite trimStart_id.
  - symmetry. apply takeWhile_app_stop; [exact Hdig|].
    destruct ws1 as [|x ws1]; [congruence|]. cbn [app].
    cbn in Hsp1. apply andb_prop in Hsp1 as [Hx _].
    destruct (isDigit x) eqn:E; [|reflexivity].
    apply digit_not_space in E. congruence.
  - destruct ds as [|d ds]; [congruence|]. cbn [app noLeadingSpace].
    cbn in Hdig. apply andb_prop in Hdig as [Hd _].
    now rewrite (digit_not_space _ Hd).
Qed.

(** The fields of a match for positive widths. *)
Lemma parsedFields_positive (line : jsstring) (u c : Z) (f : PsFields) :
  (1 <= u)%Z -> (1 <= c)%Z ->
  parsedFields line u c = Normal (Some f) ->
  (Z.of_nat (length (username f)) <= u - 1)%Z /\
  (Z.of_nat (length (executable f)) <= c - 1)%Z /\
  noLineTerminator (username f) = true /\
  noLineTerminator (executable f) = true /\
  isTrimmed (cmdline f) = true.
Proof.
  intros Hu Hc H. apply parsedFields_inv in H as (matches & _ & Hm & Hf).
  destruct Hm as [ws0 ds ws1 f2 ws2 f3 ws3 f4
    _ _ _ _ _ Hf2 _ _ Hf3 _ _ _].
  apply matchedBy_anyTimes in Hf2 as [Hl2 Hn2]; [|lia].
  apply matchedBy_anyTimes in Hf3 as [Hl3 Hn3]; [|lia].
  cbn in Hf. inversion Hf; subst f; clear Hf.
  cbn [username executable cmdline].
  pose proof (trim_length f2). pose proof (trim_length f3).
  split; [lia|]. split; [lia|].
  split; [now apply noLineTerminator_trim|].
  split; [now apply noLineTerminator_trim|apply trim_isTrimmed].
Qed.

Lemma toDouble_not_NaN (n : N) : toDouble n <> NaN.
Proof.
  unfold toDouble. destruct (n <? 2 ^ 53)%N; [discriminate|].
  match goal with |- (if ?b then _ else _) <> _ => destruct b end;
    discriminate.
Qed.

End FieldFacts.

(** X1. Whatever the widths, the description of a returned record is the
    run of decimal digits that follows the leading white space of the line:
    the pid is read from the first visible characters and from nothing
    else. *)
Theorem parseLineFromPs_pid_text
    (line : jsstring) (u c : Z) (it : ProcessItem) :
  parseLineFromPs line u c = Normal (Some it) ->
  description it = takeWhile isDigit (trimStart line).
Proof.
  intros H. apply parseLineFromPs_inv in H as (f & Hf & ->).
  apply parsedFields_pidText in Hf as (Hp & _). exact Hp.
Qed.

Lemma parseLineFromPs_pid_text_witness :
  description {| pid := Fin 42; label := str "root:systemd";
                 description := str "42"; detail := str "/sbin/init" |}
  = takeWhile isDigit (trimStart line42).
Proof.
  apply (parseLineFromPs_pid_text line42 20 50). vm_compute. reflexivity.
Defined.

(** X2. Whatever the widths, a line that is empty, blank, or whose first
    visible character is not a decimal digit yields the no-match signal. *)
Theorem parseLineFromPs_needs_digit (line : jsstring) (u c : Z) :
  takeWhile isDigit (trimStart line) = [] ->
  parseLineFromPs line u c = Normal None.
Proof.
  intros H.
  destruct (parseLineFromPs_total line u c) as [[it|] E]; [|exact E].
  apply parseLineFromPs_inv in E as (f & Hf & _).
  apply parsedFields_pidText in Hf as (Hp & Hne & _). congruence.
Qed.

Lemma parseLineFromPs_needs_digit_witness :
  parseLineFromPs headerLine 20 50 = Normal None /\
  parseLineFromPs [] 20 50 = Normal None.
Proof.
  split; apply parseLineFromPs_needs_digit; vm_compute; reflexivity.
Defined.

(** X3. The pid of a returned record is never [NaN]: it is the double
    nearest to the value of the description, which is a non-empty string of
    decimal digits. *)
Theorem parseLineFromPs_pid_number
    (line : jsstring) (u c : Z) (it : ProcessItem) :
  parseLineFromPs line u c = Normal (Some it) ->
  exists n,
    MV 0 (description it) = Some n /\ pid it = toDouble n /\ pid it <> NaN.
Proof.
  intros H. apply parseLineFromPs_inv in H as (f & Hf & ->).
  apply parsedFields_pidText in Hf as (_ & _ & Hdig & _).
  cbn [processItem description pid].
  pose proof (MV_valLsd (rev (pidText f))) as Hv.
  unfold allDigits in Hv. rewrite forallb_reverse, rev_involutive in Hv.
  specialize (Hv Hdig). exists (valLsd (rev (pidText f))).
  unfold Number. rewrite Hv. repeat split. apply toDouble_not_NaN.
Qed.

Lemma parseLineFromPs_pid_number_witness :
  exists n,
    MV 0 (str "42") = Some n /\ Fin 42 = toDouble n /\ Fin 42 <> NaN.
Proof.
  exact (parseLineFromPs_pid_number line42 20 50
           {| pid := Fin 42; label := str "root:systemd";
              description := str "42"; detail := str "/sbin/init" |}
           eq_refl).
Defined.

(** X4. The texts of a returned record never contain a line terminator: the
    detail for all widths, the label for positive widths. *)
Theorem parseLineFromPs_single_line
    (line : jsstring) (u c : Z) (it : ProcessItem) :
  parseLineFromPs line u c = Normal (Some it) ->
  noLineTerminator (detail it) = true /\
  ((1 <= u)%Z -> (1 <= c)%Z -> noLineTerminator (label it) = true).
Proof.
  intros H. apply parseLineFromPs_inv in H as (f & Hf & ->).
  cbn [processItem detail label]. split.
  - now apply parsedFields_pidText in Hf as (_ & _ & _ & H4).
  - intros Hu Hc.
    apply (parsedFields_positive _ _ _ _ Hu Hc) in Hf
      as (_ & _ & Hn2 & Hn3 & _).
    unfold noLineTerminator in *. rewrite !forallb_app, Hn2, Hn3.
    reflexivity.
Qed.

Lemma parseLineFromPs_single_line_witness :
  noLineTerminator (str "/sbin/init") = true /\
  noLineTerminator (str "root:systemd") = true.
Proof.
  destruct (parseLineFromPs_single_line exampleLine 20 50
              {| pid := Fin 1; label := str "root:systemd";
                 description := str "1"; detail := str "/sbin/init" |}
              eq_refl) as [H1 H2].
  split; [exact H1|apply H2; lia].
Defined.

Section ShiftFacts.

(** *** The matcher and its continuation *)

Lemma greedy_ext (R : Type) (c : cclass) :
  forall s pos (k1 k2 : jsstring -> nat -> option R),
    (forall s' p', k1 s' p' = k2 s' p') ->
    greedy c s pos k1 = greedy c s pos k2.
Proof.
  induction s as [|x s IH]; intros pos k1 k2 H; cbn [greedy]; [apply H|].
  now rewrite (IH (S pos) k1 k2 H), H.
Qed.

Lemma exactly_ext (R : Type) (c : cclass) :
  forall n s pos (k1 k2 : jsstring -> nat -> option R),
    (forall s' p', k1 s' p' = k2 s' p') ->
    exactly c n s pos k1 = exactly c n s pos k2.
Proof.
  induction n as [|n IH]; intros s pos k1 k2 H; cbn [exactly]; [apply H|].
  destruct s as [|x s]; [reflexivity|].
  destruct (cmatch c x); [now apply IH|reflexivity].
Qed.

Lemma m_ext (R : Type) (r : regex) :
  forall s pos cs (k1 k2 : jsstring -> nat -> captures -> option R),
    (forall s' p' cs', k1 s' p' cs' = k2 s' p' cs') ->
    m r s pos cs k1 = m r s pos cs k2.
Proof.
  induction r as [|c|r1 IH1 r2 IH2|c|c n|i r IH| |];
    intros s pos cs k1 k2 H; cbn [m].
  - apply H.
  - destruct s as [|x s]; [reflexivity|]. now rewrite H.
  - apply IH1. intros s' p' cs'. now apply IH2.
  - apply greedy_ext. intros s' p'. apply H.
  - apply exactly_ext. intros s' p'. apply H.
  - apply IH. intros s' p' cs'. apply H.
  - now rewrite H.
  - destruct s; [apply H|reflexivity].
Qed.

(** *** Moving the start index *)

Lemma greedy_shift (R : Type) (c : cclass) (d : nat) :
  forall s pos (k : jsstring -> nat -> option R),
    greedy c s (d + pos) k = greedy c s pos (fun s' p' => k s' (d + p')).
Proof.
  induction s as [|x s IH]; intros pos k; cbn [greedy]; [reflexivity|].
  now rewrite <- IH, Nat.add_succ_r.
Qed.

Lemma exactly_shift (R : Type) (c : cclass) (d : nat) :
  forall n s pos (k : jsstring -> nat -> option R),
    exactly c n s (d + pos) k = exactly c n s pos (fun s' p' => k s' (d + p')).
Proof.
  induction n as [|n IH]; intros s pos k; cbn [exactly]; [reflexivity|].
  destruct s as [|x s]; [reflexivity|].
  now rewrite <- IH, Nat.add_succ_r.
Qed.

Lemma m_shift (R : Type) (d : nat) (r : regex) :
  bolFree r = true ->
  forall s pos cs (k : jsstring -> nat -> captures -> option R),
    m r s (d + pos) cs k =
    m r s pos cs (fun s' p' cs' => k s' (d + p') cs').
Proof.
  induction r as [|c|r1 IH1 r2 IH2|c|c n|i r IH| |];
    cbn [bolFree]; intros Hb s pos cs k; cbn [m]; try discriminate.
  - reflexivity.
  - now rewrite Nat.add_succ_r.
  - apply andb_prop in Hb as [Hb1 Hb2]. rewrite (IH1 Hb1).
    apply m_ext. intros s' p' cs'. now apply IH2.
  - apply greedy_shift.
  - apply exactly_shift.
  - rewrite (IH Hb). apply m_ext. intros s' p' cs'.
    now replace (d + p' - (d + pos)) with (p' - pos) by lia.
  - reflexivity.
Qed.

(** *** Mapping the answer *)

Lemma greedy_map (R T : Type) (f : R -> T) (c : cclass) :
  forall s pos (k : jsstring -> nat -> option R),
    greedy c s pos (fun s' p' => option_map f (k s' p')) =
    option_map f (greedy c s pos k).
Proof.
  induction s as [|x s IH]; intros pos k; cbn [greedy]; [reflexivity|].
  rewrite IH. destruct (cmatch c x); [|reflexivity].
  destruct (greedy c s (S pos) k); reflexivity.
Qed.

Lemma exactly_map (R T : Type) (f : R -> T) (c : cclass) :
  forall n s pos (k : jsstring -> nat -> option R),
    exactly c n s pos (fun s' p' => option_map f (k s' p')) =
    option_map f (exactly c n s pos k).
Proof.
  induction n as [|n IH]; intros s pos k; cbn [exactly]; [reflexivity|].
  destruct s as [|x s]; [reflexivity|].
  destruct (cmatch c x); [apply IH|reflexivity].
Qed.

Lemma m_map (R T : Type) (f : R -> T) (r : regex) :
  forall s pos cs (k : jsstring -> nat -> captures -> option R),
    m r s pos cs (fun s' p' cs' => option_map f (k s' p' cs')) =
    option_map f (m r s pos cs k).
Proof.
  induction r as [|c|r1 IH1 r2 IH2|c|c n|i r IH| |];
    intros s pos cs k; cbn [m].
  - reflexivity.
  - destruct s as [|x s]; [reflexivity|].
    destruct (cmatch c x); reflexivity.
  - rewrite <- IH1. apply m_ext. intros s' p' cs'. apply IH2.
  - apply (greedy_map _ _ f c s pos (fun s' p' => k s' p' cs)).
  - apply (exactly_map _ _ f c n s pos (fun s' p' => k s' p' cs)).
  - apply (IH s pos cs
             (fun s' p' cs' => k s' p' ((i, firstn (p' - pos) s) :: cs'))).
  - destruct (Nat.eqb pos 0); reflexivity.
  - destruct s; reflexivity.
Qed.

(** *** Leading white space *)

(** A run of [c] in front of the input is swallowed whole when the rest of
    the pattern cannot start on a [c]. *)
Lemma greedy_skip (R : Type) (c : cclass) (ws s : jsstring)
    (k : jsstring -> nat -> option R) :
  forallb (cmatch c) ws = true ->
  (forall x s' p, cmatch c x = true -> k (x :: s') p = None) ->
  forall pos, greedy c (ws ++ s) pos k = greedy c s (length ws + pos) k.
Proof.
  intros Hws Hk. induction ws as [|x ws IH]; intros pos; [reflexivity|].
  cbn in Hws. apply andb_prop in Hws as [Hx Hws].
  cbn [app greedy length]. rewrite Hx, (IH Hws), (Hk _ _ _ Hx).
  rewrite Nat.add_succ_r.
  change (S (length ws) + pos) with (S (length ws + pos)).
  destruct (greedy c s (S (length ws + pos)) k); reflexivity.
Qed.

Lemma bolFree_literal (s : jsstring) : bolFree (literal s) = true.
Proof. induction s as [|x s IH]; [reflexivity|exact IH]. Qed.

Lemma bolFree_anyTimes (n : Z) : bolFree (anyTimes n) = true.
Proof.
  unfold anyTimes. destruct (0 <=? n)%Z; [reflexivity|].
  cbn [bolFree]. apply bolFree_literal.
Qed.

Lemma bolFree_psEntryTail (u c : Z) : bolFree (psEntryTail u c) = true.
Proof.
  unfold psEntryTail. cbn [seqs bolFree Plus].
  now rewrite !bolFree_anyTimes.
Qed.

Lemma psEntryTail_rejects_space (R : Type) (u c : Z) (x : char)
    (s : jsstring) (p : nat) (cs : captures)
    (k : jsstring -> nat -> captures -> option R) :
  isSpace x = true -> m (psEntryTail u c) (x :: s) p cs k = None.
Proof.
  intros Hx. unfold psEntryTail. cbn [seqs Plus m].
  destruct (cmatch ClassDigit x) eqn:E; [|reflexivity].
  apply digit_not_space in E. congruence.
Qed.

Lemma psEntry_tail (u c : Z) :
  psEntry u c = Seq Bol (Seq (Star ClassSpace) (psEntryTail u c)).
Proof. reflexivity. Qed.

Lemma m_psEntry_leading (R : Type) (u c : Z) (ws line : jsstring)
    (k : jsstring -> nat -> captures -> option R) :
  forallb isSpace ws = true ->
  m (psEntry u c) (ws ++ line) 0 [] k =
  m (psEntry u c) line 0 [] (fun s p cs => k s (length ws + p) cs).
Proof.
  intros Hws. rewrite psEntry_tail. cbn [m Nat.eqb].
  rewrite greedy_skip; [|exact Hws|].
  - rewrite greedy_shift. apply greedy_ext. intros s' p'.
    apply m_shift, bolFree_psEntryTail.
  - intros x s' p Hx. now apply psEntryTail_rejects_space.
Qed.

Lemma parsedFields_leading (u c : Z) (ws line : jsstring) :
  forallb isSpace ws = true ->
  parsedFields (ws ++ line) u c = parsedFields line u c.
Proof.
  intros Hws. unfold parsedFields.
  rewrite psEntry_tail, !exec_anchored, <- psEntry_tail.
  rewrite m_psEntry_leading by exact Hws.
  assert (E :
    m (psEntry u c) line 0 [] (fun _ p cs => Some (length ws + p, cs)) =
    option_map (fun ec : nat * captures => (length ws + fst ec, snd ec))
      (m (psEntry u c) line 0 [] (fun _ e cs => Some (e, cs)))).
  { rewrite <- m_map. reflexivity. }
  rewrite E. clear E.
  destruct (m (psEntry u c) line 0 [] (fun _ e cs => Some (e, cs)))
    as [[e cs]|]; reflexivity.
Qed.

End ShiftFacts.

(** X5. White space in front of a line changes nothing: the line with any
    run of white space prepended parses to the same record, or fails to
    match, exactly as the line itself, whatever the widths. The width of the
    pid column is therefore immaterial. *)
Theorem parseLineFromPs_leading_space (ws line : jsstring) (u c : Z) :
  forallb isSpace ws = true ->
  parseLineFromPs (ws ++ line) u c = parseLineFromPs line u c.
Proof.
  intros Hws. unfold parseLineFromPs.
  now rewrite parsedFields_leading.
Qed.

Lemma parseLineFromPs_leading_space_witness :
  parseLineFromPs (str "   " ++ line42) 20 50 = parseLineFromPs line42 20 50.
Proof.
  apply parseLineFromPs_leading_space. reflexivity.
Defined.

Section ShortestLine.

Lemma repeat_visible_trim (k : nat) : trim (repeat 120%N k) = repeat 120%N k.
Proof.
  apply trim_id. unfold isTrimmed. rewrite rev_repeat.
  destruct k; reflexivity.
Qed.

Lemma repeat_visible_noLineTerminator (k : nat) :
  noLineTerminator (repeat 120%N k) = true.
Proof. induction k; [reflexivity|exact IHk]. Qed.

End ShortestLine.

(** X6. The length bound below which no line matches is sharp: for widths
    of at least 2, the line made of one digit, a separator, two full fields
    each followed by one separator, and no arguments has exactly
    [usernameWidth + commandWidth + 2] characters and yields a record, whose
    detail is empty. *)
Theorem parseLineFromPs_shortest_line (u c : Z) :
  (2 <= u)%Z -> (2 <= c)%Z ->
  Z.of_nat (length (shortestLine u c)) = (u + c + 2)%Z /\
  parseLineFromPs (shortestLine u c) u c =
    Normal (Some {| pid := Fin 1;
                    label := repeat 120%N (Z.to_nat (u - 1)) ++ str ":"
                             ++ repeat 120%N (Z.to_nat (c - 1));
                    description := str "1";
                    detail := [] |}).
Proof.
  intros Hu Hc. split.
  - unfold shortestLine. rewrite !length_app, !repeat_length.
    change (length (str "1 ")) with 2. change (length (str " ")) with 1. lia.
  - change (Fin 1) with (Number (str "1")).
    apply (parseLineFromPs_fields _ _ _
             {| pidText := str "1";
                username := repeat 120%N (Z.to_nat (u - 1));
                executable := repeat 120%N (Z.to_nat (c - 1));
                cmdline := [] |}).
    change (shortestLine u c) with
      ([] ++ [49%N] ++ [32%N] ++ repeat 120%N (Z.to_nat (u - 1)) ++ [32%N]
          ++ repeat 120%N (Z.to_nat (c - 1)) ++ [32%N] ++ []).
    erewrite parsedFields_match.
    2:{ apply exec_psEntry_layout; try reflexivity; try discriminate;
          try apply repeat_length;
          try apply repeat_visible_noLineTerminator; try lia.
        - destruct (Z.to_nat (u - 1)) eqn:E; [lia|discriminate].
        - destruct (Z.to_nat (u - 1)) eqn:E; [lia|reflexivity].
        - destruct (Z.to_nat (c - 1)) eqn:E; [lia|discriminate].
        - destruct (Z.to_nat (c - 1)) eqn:E; [lia|reflexivity]. }
    now rewrite !repeat_visible_trim.
Qed.

Lemma parseLineFromPs_shortest_line_witness :
  Z.of_nat (length (shortestLine 20 50)) = 72%Z /\
  parseLineFromPs (shortestLine 20 50) 20 50 =
    Normal (Some {| pid := Fin 1;
                    label := repeat 120%N 19 ++ str ":" ++ repeat 120%N 49;
                    description := str "1";
                    detail := [] |}).
Proof.
  apply (parseLineFromPs_shortest_line 20 50); lia.
Defined.

(* ===================================================================== *)
(** ** Further properties of the lister                                   *)
(* ===================================================================== *)

Section OutputFacts.

Lemma split_length (s : jsstring) :
  length (split 10%N s) = S (lineFeeds s).
Proof.
  unfold lineFeeds. induction s as [|x s IH]; [reflexivity|].
  cbn [split filter]. destruct (x =? 10)%N.
  - cbn [length]. now rewrite IH.
  - destruct (split_nonempty 10%N s) as (h & t & E).
    rewrite E in *. exact IH.
Qed.

Lemma split_app (sep : char) (a b : jsstring) :
  split sep (a ++ sep :: b) = split sep a ++ split sep b.
Proof.
  induction a as [|x a IH]; cbn [app split].
  - now rewrite N.eqb_refl.
  - destruct (x =? sep)%N; rewrite IH; [reflexivity|].
    destruct (split_nonempty sep a) as (h & t & ->). reflexivity.
Qed.

Lemma parsedLine_length (line : jsstring) : length (parsedLine line) <= 1.
Proof.
  unfold parsedLine.
  destruct (parseLineFromPs line usernameCharacters commandCharacters)
    as [[entry|]|e]; cbn; lia.
Qed.

Lemma parsedLines_length (lines : list jsstring) :
  length (parsedLines lines) <= length lines.
Proof.
  induction lines as [|line lines IH]; [reflexivity|].
  rewrite parsedLines_cons, length_app. cbn [length].
  pose proof (parsedLine_length line).
  destruct (truthy line); cbn [length]; lia.
Qed.

Lemma parsedLines_app (l1 l2 : list jsstring) :
  parsedLines (l1 ++ l2) = parsedLines l1 ++ parsedLines l2.
Proof.
  unfold parsedLines. now rewrite filter_app, flat_map_app.
Qed.

(** The lister throws only the error of its diagnostic check. *)
Lemma getAttachItems_resolved (r : ExecResult) :
  (includes (stderr r) (str "screen size is bogus") = false /\
   (error r <> None \/ stderr r <> []) /\
   getAttachItems (Resolved r) =
     Throw (Error (str "Unable to select process to attach to: "
                   ++ stderr r))) \/
  ((includes (stderr r) (str "screen size is bogus") = true \/
    (error r = None /\ stderr r = [])) /\
   getAttachItems (Resolved r) =
     Normal (parsedLines (tl (split 10%N (stdout r))))).
Proof.
  destruct (includes (stderr r) (str "screen size is bogus")) eqn:Ei.
  { right. split; [now left|]. apply getAttachItems_pass. now right. }
  destruct (error r) as [e|] eqn:Ee.
  { left. split; [reflexivity|]. split; [left; discriminate|].
    apply getAttachItems_fail; [right; congruence|exact Ei]. }
  destruct (truthy (stderr r)) eqn:Et.
  - assert (Hne : stderr r <> []).
    { intros E. rewrite E in Et. discriminate. }
    left. split; [reflexivity|]. split; [now right|].
    apply getAttachItems_fail; [now left|exact Ei].
  - assert (He : stderr r = []).
    { destruct (stderr r); [reflexivity|discriminate]. }
    right. split; [right; now split|].
    apply getAttachItems_pass. left. now split.
Qed.

End OutputFacts.

(** X7. When [exec] resolves, the lister fails exactly when the command
    reported an error or wrote a diagnostic text, and that text does not
    contain [screen size is bogus]; the only error it then throws is the one
    whose message ends with the diagnostic text, which is empty when only
    the error was reported. *)
Theorem getAttachItems_throws_iff (r : ExecResult) (e : exn) :
  getAttachItems (Resolved r) = Throw e <->
  (error r <> None \/ stderr r <> []) /\
  includes (stderr r) (str "screen size is bogus") = false /\
  e = Error (str "Unable to select process to attach to: " ++ stderr r).
Proof.
  split.
  - intros H.
    destruct (getAttachItems_resolved r) as [(Hi & Hc & Ht)|(_ & Hn)].
    + split; [exact Hc|]. split; [exact Hi|]. congruence.
    + congruence.
  - intros (Hc & Hi & ->). apply getAttachItems_fail; [|exact Hi].
    destruct Hc; [now right|now left].
Qed.

(** X8. The lister returns at most as many records as the output has line
    feeds; an output without a line feed, the empty output included, gives
    the empty list. *)
Theorem getAttachItems_count (r : ExecResult) (items : list ProcessItem) :
  getAttachItems (Resolved r) = Normal items ->
  length items <= lineFeeds (stdout r) /\
  (lineFeeds (stdout r) = 0 -> items = []).
Proof.
  intros H.
  destruct (getAttachItems_resolved r) as [(_ & _ & Ht)|(_ & Hn)];
    [congruence|].
  rewrite Hn in H. inversion H; subst items; clear H.
  pose proof (parsedLines_length (tl (split 10%N (stdout r)))) as Hl.
  pose proof (split_length (stdout r)) as Hs.
  destruct (split 10%N (stdout r)) as [|h t]; [discriminate|].
  cbn [tl length] in *.
  assert (Hle : length (parsedLines t) <= lineFeeds (stdout r)) by lia.
  split; [exact Hle|]. intros Hz. rewrite Hz in Hle.
  destruct (parsedLines t); [reflexivity|cbn in Hle; lia].
Qed.

Lemma getAttachItems_count_witness :
  length [ {| pid := Fin 1; label := str "root:systemd";
              description := str "1"; detail := str "/sbin/init" |} ]
  <= lineFeeds (headerLine ++ newline ++ exampleLine ++ newline).
Proof.
  refine (proj1 (getAttachItems_count
            {| error := None;
               stdout := headerLine ++ newline ++ exampleLine ++ newline;
               stderr := [] |} _ _)).
  vm_compute. reflexivity.
Defined.

(** X9. Records add up along the output: when the diagnostic check lets
    the output through, the records of an output followed by a line feed and
    more text are the records of the output followed by the records of the
    lines of that text. *)
Theorem getAttachItems_append
    (e : option exn) (diagnostic a b : jsstring) :
  (e = None /\ diagnostic = []) \/
  includes diagnostic (str "screen size is bogus") = true ->
  exists items,
    getAttachItems
      (Resolved {| error := e; stdout := a; stderr := diagnostic |})
      = Normal items /\
    getAttachItems
      (Resolved {| error := e; stdout := a ++ 10%N :: b;
                   stderr := diagnostic |})
      = Normal (items ++ parsedLines (split 10%N b)).
Proof.
  intros H. exists (parsedLines (tl (split 10%N a))). split.
  - now apply getAttachItems_pass.
  - rewrite getAttachItems_pass by exact H. cbn [stdout].
    rewrite split_app.
    destruct (split_nonempty 10%N a) as (h & t & ->). cbn [app tl].
    now rewrite parsedLines_app.
Qed.

Lemma getAttachItems_append_witness :
  exists items,
    getAttachItems
      (Resolved {| error := None; stdout := headerLine ++ newline ++ line42;
                   stderr := [] |})
      = Normal items /\
    getAttachItems
      (Resolved {| error := None;
                   stdout := (headerLine ++ newline ++ line42)
                             ++ 10%N :: exampleLine;
                   stderr := [] |})
      = Normal (items ++ parsedLines (split 10%N exampleLine)).
Proof.
  apply getAttachItems_append. left. split; reflexivity.
Defined.

(** X10. Every record that the lister returns has a label made of a user
    name of at most 19 characters, a colon, and an executable of at most 49
    characters, a description that is a non-empty string of decimal digits,
    a pid that is not [NaN], and no line terminator in label or detail. *)
Theorem getAttachItems_item_shape
    (ps : promise ExecResult) (items : list ProcessItem) (it : ProcessItem) :
  getAttachItems ps = Normal items -> In it items ->
  (exists user exe,
     label it = user ++ str ":" ++ exe /\
     length user <= 19 /\ length exe <= 49) /\
  description it <> [] /\ allDigits (description it) = true /\
  pid it = Number (description it) /\ pid it <> NaN /\
  noLineTerminator (label it) = true /\
  noLineTerminator (detail it) = true /\
  isTrimmed (detail it) = true.
Proof.
  intros Hitems Hin.
  destruct (getAttachItems_items _ _ _ Hitems Hin) as (line & f & Hf & ->).
  pose proof (parsedFields_pidText _ _ _ _ Hf) as (_ & Hne & Hdig & Hn4).
  assert (Hu : (1 <= usernameCharacters)%Z) by (unfold usernameCharacters; lia).
  assert (Hc : (1 <= commandCharacters)%Z) by (unfold commandCharacters; lia).
  pose proof (parsedFields_positive _ _ _ _ Hu Hc Hf)
    as (Hl2 & Hl3 & Hn2 & Hn3 & Ht4).
  unfold usernameCharacters in Hl2. unfold commandCharacters in Hl3.
  cbn [processItem label description pid detail].
  split; [exists (username f), (executable f); repeat split; lia|].
  split; [exact Hne|]. split; [exact Hdig|]. split; [reflexivity|].
  split.
  { pose proof (MV_valLsd (rev (pidText f))) as Hv.
    unfold allDigits in Hv. rewrite forallb_reverse, rev_involutive in Hv.
    unfold Number. rewrite (Hv Hdig). apply toDouble_not_NaN. }
  split; [|now split].
  unfold noLineTerminator in *. now rewrite !forallb_app, Hn2, Hn3.
Qed.

Lemma getAttachItems_item_shape_witness :
  (exists user exe,
     label initItem = user ++ str ":" ++ exe /\
     length user <= 19 /\ length exe <= 49) /\
  description initItem <> [] /\ allDigits (description initItem) = true /\
  pid initItem = Number (description initItem) /\ pid initItem <> NaN /\
  noLineTerminator (label initItem) = true /\
  noLineTerminator (detail initItem) = true /\
  isTrimmed (detail initItem) = true.
Proof.
  apply (getAttachItems_item_shape
           (psOutput [headerLine; exampleLine] []) [initItem] initItem).
  - vm_compute. reflexivity.
  - left. reflexivity.
Defined.

(* ===================================================================== *)
(** ** Further properties of the selector                                 *)
(* ===================================================================== *)

Section SelectorFacts.

Lemma chooseProcess_cases
    (ps : promise ExecResult)
    (showQuickPick : list ProcessItem -> option ProcessItem) :
  (exists e, getAttachItems ps = Throw e /\
             chooseProcess ps showQuickPick = Throw e) \/
  (exists items, getAttachItems ps = Normal items /\
                 showQuickPick items = None /\
                 chooseProcess ps showQuickPick
                   = Throw (Error (str "Process not selected"))) \/
  (exists items chosen, getAttachItems ps = Normal items /\
                        showQuickPick items = Some chosen /\
                        chooseProcess ps showQuickPick
                          = Normal (Some chosen)).
Proof.
  unfold chooseProcess.
  destruct (getAttachItems ps) as [items|e] eqn:E; cbn [bind].
  - destruct (showQuickPick items) as [chosen|] eqn:Ep.
    + right. right. now exists items, chosen.
    + right. left. now exists items.
  - left. now exists e.
Qed.

Lemma digits_no_colon (s : jsstring) :
  allDigits s = true -> forallb (fun x => negb (x =? 58)%N) s = true.
Proof.
  induction s as [|x s IH]; [reflexivity|]. cbn. intros H.
  apply andb_prop in H as [Hx Hs]. rewrite (IH Hs), andb_true_r.
  apply isDigit_range in Hx. apply negb_true_iff, N.eqb_neq. lia.
Qed.

Lemma beforeColon_pid (n : N) (rest : jsstring) :
  beforeColon (decimal n ++ str ":" ++ rest) = decimal n.
Proof.
  unfold beforeColon. apply takeWhile_app_stop; [|reflexivity].
  apply digits_no_colon, decimal_allDigits.
Qed.

End SelectorFacts.

(** X11. A failure of the lister comes out of [chooseProcess] and of
    [pickProcess] unchanged, whatever the quick pick would have answered:
    the list is not shown. *)
Theorem pickProcess_lister_failure
    (large : N -> jsstring) (ps : promise ExecResult)
    (showQuickPick : list ProcessItem -> option ProcessItem) (e : exn) :
  getAttachItems ps = Throw e ->
  chooseProcess ps showQuickPick = Throw e /\
  pickProcess large ps showQuickPick = Throw e.
Proof.
  intros H. unfold pickProcess, chooseProcess. rewrite H. now split.
Qed.

Lemma pickProcess_lister_failure_witness :
  chooseProcess (psOutput [headerLine] (str "ps: permission denied"))
                pickFirst
    = Throw (Error (str "Unable to select process to attach to: "
                    ++ str "ps: permission denied")) /\
  pickProcess noDigits (psOutput [headerLine] (str "ps: permission denied"))
              pickFirst
    = Throw (Error (str "Unable to select process to attach to: "
                    ++ str "ps: permission denied")).
Proof.
  apply pickProcess_lister_failure. vm_compute. reflexivity.
Defined.

(** X12. [pickProcess] returns a value only after the lister has succeeded
    and the quick pick has answered with an entry, and the value is then the
    pid and the label of that entry; [chooseProcess] never returns
    [undefined], so the text [undefined] never fills a hole of the result. *)
Theorem pickProcess_value
    (large : N -> jsstring) (ps : promise ExecResult)
    (showQuickPick : list ProcessItem -> option ProcessItem) (s : jsstring) :
  chooseProcess ps showQuickPick <> Normal None /\
  (pickProcess large ps showQuickPick = Normal s <->
   exists items chosen,
     getAttachItems ps = Normal items /\
     showQuickPick items = Some chosen /\
     s = toString large (pid chosen) ++ str ":" ++ label chosen).
Proof.
  unfold pickProcess.
  destruct (chooseProcess_cases ps showQuickPick)
    as [(e & Hg & Hc)|[(items & Hg & Hp & Hc)|(items & chosen & Hg & Hp & Hc)]];
    rewrite Hc; cbn [bind]; (split; [discriminate|]).
  - split; [discriminate|]. intros (i & ch & Hi & _). congruence.
  - split; [discriminate|]. intros (i & ch & Hi & Hs & _). congruence.
  - cbn [option_map hole]. split.
    + intros H. exists items, chosen. repeat split; trivial. congruence.
    + intros (i & ch & Hi & Hs & ->).
      assert (i = items) by congruence. subst i.
      assert (ch = chosen) by congruence. now subst ch.
Qed.

(** X13. When [exec] resolves, the error [Process not selected] out of
    [pickProcess] can only mean that the list was shown and dismissed: the
    lister has no error with that message. *)
Theorem pickProcess_not_selected
    (large : N -> jsstring) (r : ExecResult)
    (showQuickPick : list ProcessItem -> option ProcessItem) :
  pickProcess large (Resolved r) showQuickPick
    = Throw (Error (str "Process not selected")) ->
  exists items,
    getAttachItems (Resolved r) = Normal items /\
    showQuickPick items = None.
Proof.
  unfold pickProcess.
  destruct (chooseProcess_cases (Resolved r) showQuickPick)
    as [(e & Hg & Hc)|[(items & Hg & Hp & Hc)|(items & chosen & Hg & Hp & Hc)]];
    rewrite Hc; cbn [bind]; intros H.
  - destruct (getAttachItems_resolved r) as [(_ & _ & Ht)|(_ & Hn)];
      [|congruence].
    rewrite Ht in Hg. inversion Hg; subst e. inversion H.
  - now exists items.
  - discriminate.
Qed.

Lemma pickProcess_not_selected_witness :
  exists items,
    getAttachItems (psOutput [headerLine; exampleLine] []) = Normal items /\
    dismiss items = None.
Proof.
  apply (pickProcess_not_selected noDigits
           {| error := None;
              stdout := concat (map (fun l => l ++ newline)
                                    [headerLine; exampleLine]);
              stderr := [] |} dismiss).
  vm_compute. reflexivity.
Defined.

(** X14. The pid can be read back from the picked value: for an entry whose
    pid is an integer below [2^53], the text before the first colon of the
    value is the decimal numeral of the pid, [Number] maps it to the pid,
    and what follows that colon is the label, colons included. *)
Theorem pickProcess_decode
    (large : N -> jsstring) (ps : promise ExecResult)
    (showQuickPick : list ProcessItem -> option ProcessItem)
    (items : list ProcessItem) (chosen : ProcessItem) (n : N) :
  getAttachItems ps = Normal items ->
  showQuickPick items = Some chosen ->
  pid chosen = Fin n -> (n < 2 ^ 53)%N ->
  exists s,
    pickProcess large ps showQuickPick = Normal s /\
    beforeColon s = decimal n /\
    Number (beforeColon s) = pid chosen /\
    skipn (S (length (beforeColon s))) s = label chosen.
Proof.
  intros Hitems Hpick Hpid Hn.
  exists (decimal n ++ str ":" ++ label chosen).
  assert (Hs : pickProcess large ps showQuickPick =
               Normal (decimal n ++ str ":" ++ label chosen)).
  { unfold pickProcess, chooseProcess. rewrite Hitems. cbn [bind].
    rewrite Hpick. cbn [bind option_map hole]. rewrite Hpid.
    cbn [toString]. apply N.ltb_lt in Hn. now rewrite Hn. }
  rewrite beforeColon_pid, Hpid, (Number_decimal _ Hn).
  repeat split; trivial.
  change (S (length (decimal n))) with (1 + length (decimal n)).
  rewrite <- skipn_skipn, skipn_app, skipn_all, Nat.sub_diag. reflexivity.
Qed.

Lemma pickProcess_decode_witness :
  exists s,
    pickProcess noDigits (psOutput [headerLine; line42] []) pickFirst
      = Normal s /\
    beforeColon s = decimal 42 /\
    Number (beforeColon s) = pid item42 /\
    skipn (S (length (beforeColon s))) s = label item42.
Proof.
  apply (pickProcess_decode noDigits (psOutput [headerLine; line42] [])
           pickFirst [item42] item42 42).
  - vm_compute. reflexivity.
  - reflexivity.
  - reflexivity.
  - reflexivity.
Defined.

Section EmptyLine.

Lemma empty_line_no_match (u c : Z) :
  parseLineFromPs [] u c = Normal None.
Proof.
  destruct (parseLineFromPs_total [] u c) as [[it|] E]; [|exact E].
  apply parseLineFromPs_inv in E as (f & Hf & _).
  apply parsedFields_pidText in Hf as (Hp & Hne & _). now cbn in Hp.
Qed.

End EmptyLine.

(** X15. When [exec] resolves and the lister succeeds, no process line is
    lost and none is invented: a record is in the list exactly when some
    line after the first line of the output parses to it. *)
Theorem getAttachItems_membership
    (r : ExecResult) (items : list ProcessItem) (it : ProcessItem) :
  getAttachItems (Resolved r) = Normal items ->
  (In it items <->
   exists line,
     In line (tl (split 10%N (stdout r))) /\
     parseLineFromPs line usernameCharacters commandCharacters
       = Normal (Some it)).
Proof.
  intros H.
  destruct (getAttachItems_resolved r) as [(_ & _ & Ht)|(_ & Hn)];
    [congruence|].
  rewrite Hn in H. inversion H; subst items; clear H Hn.
  unfold parsedLines. rewrite in_flat_map. split.
  - intros (line & Hin & Hit). apply filter_In in Hin as [Hin _].
    exists line. split; [exact Hin|]. unfold parsedLine in Hit.
    destruct (parseLineFromPs line usernameCharacters commandCharacters)
      as [[entry|]|e]; cbn in Hit; try contradiction.
    destruct Hit as [->|[]]. reflexivity.
  - intros (line & Hin & Hp). exists line. split.
    + apply filter_In. split; [exact Hin|].
      destruct line as [|x line]; [|reflexivity].
      rewrite empty_line_no_match in Hp. discriminate.
    + unfold parsedLine. rewrite Hp. now left.
Qed.

Lemma getAttachItems_membership_witness :
  In item42 [initItem; item42] <->
  exists line,
    In line (tl (split 10%N (headerLine ++ newline ++ exampleLine
                             ++ newline ++ line42))) /\
    parseLineFromPs line usernameCharacters commandCharacters
      = Normal (Some item42).
Proof.
  apply (getAttachItems_membership
           {| error := None;
              stdout := headerLine ++ newline ++ exampleLine
                        ++ newline ++ line42;
              stderr := [] |}).
  vm_compute. reflexivity.
Defined.

(* ===================================================================== *)
(** ** Properties of the bundle entries                                   *)
(* ===================================================================== *)

Section EntryFacts.

Import Webpack.

Lemma startsWith_app (p s : jsstring) : startsWith (p ++ s) p = true.
Proof.
  induction p as [|x p IH]; [destruct s; reflexivity|].
  cbn [app startsWith]. now rewrite N.eqb_refl, IH.
Qed.

Lemma removePrefix_app (p s : jsstring) : removePrefix p (p ++ s) = s.
Proof.
  unfold removePrefix. rewrite startsWith_app.
  now rewrite skipn_app, skipn_all, Nat.sub_diag.
Qed.

Lemma removeSuffix_app (p s : jsstring) : removeSuffix p (s ++ p) = s.
Proof.
  unfold removeSuffix. rewrite rev_app_distr, startsWith_app, length_app.
  replace (length s + length p - length p) with (length s + 0) by lia.
  now rewrite firstn_app_2, app_nil_r.
Qed.

Lemma sameString_true (a b : jsstring) : sameString a b = true <-> a = b.
Proof.
  unfold sameString. destruct (list_eq_dec N.eq_dec a b); split;
    congruence.
Qed.

Lemma sameString_false (a b : jsstring) : sameString a b = false <-> a <> b.
Proof.
  unfold sameString. destruct (list_eq_dec N.eq_dec a b); split;
    congruence.
Qed.

Lemma getOwn_setOwn (key k v : jsstring) (o : object) :
  getOwn key (setOwn k v o) =
  if sameString k key then Some v else getOwn key o.
Proof.
  induction o as [|[k' x] o IH]; cbn [setOwn getOwn]; [reflexivity|].
  destruct (sameString k' k) eqn:E1; cbn [getOwn].
  - apply sameString_true in E1. subst k'.
    destruct (sameString k key); reflexivity.
  - rewrite IH. destruct (sameString k' key) eqn:E2; [|reflexivity].
    apply sameString_true in E2. subst k'.
    destruct (sameString k key) eqn:E3; [|reflexivity].
    apply sameString_true in E3. apply sameString_false in E1. congruence.
Qed.

Lemma getOwn_assign (key k v : jsstring) (o : object) :
  getOwn key (assign k v o) =
  if sameString k key && negb (sameString k (str "__proto__"))
  then Some v else getOwn key o.
Proof.
  unfold assign. destruct (sameString k (str "__proto__")).
  - now rewrite andb_false_r.
  - now rewrite getOwn_setOwn, andb_true_r.
Qed.

Lemma entry_snoc (files : list jsstring) (filePath : jsstring) :
  entry (files ++ [filePath]) =
  assign (entryName filePath) filePath (entry files).
Proof. unfold entry. now rewrite fold_left_app. Qed.

End EntryFacts.

(** X16. The entry name undoes the layout of a source path: for every
    [name], the path [./src/name.ts] has the entry name [name], so two
    source paths of that form with the same entry name are the same path. *)
Theorem entryName_source_path (name other : jsstring) :
  Webpack.entryName (str "./src/" ++ name ++ str ".ts") = name /\
  (Webpack.entryName (str "./src/" ++ name ++ str ".ts") =
   Webpack.entryName (str "./src/" ++ other ++ str ".ts") ->
   name = other).
Proof.
  assert (H : forall n,
    Webpack.entryName (str "./src/" ++ n ++ str ".ts") = n).
  { intros n. unfold Webpack.entryName.
    now rewrite removePrefix_app, removeSuffix_app. }
  split; [apply H|]. now rewrite !H.
Qed.

(** X17. Every property of the entries object is a globbed file under its
    entry name, and no property is named [__proto__]. *)
Theorem entry_sound (files : list jsstring) (key filePath : jsstring) :
  Webpack.getOwn key (Webpack.entry files) = Some filePath ->
  In filePath files /\ Webpack.entryName filePath = key /\
  key <> str "__proto__".
Proof.
  induction files as [|p files IH] using rev_ind; [discriminate|].
  rewrite entry_snoc, getOwn_assign.
  destruct (Webpack.sameString (Webpack.entryName p) key) eqn:E1;
    cbn [andb].
  - apply sameString_true in E1.
    destruct (Webpack.sameString (Webpack.entryName p) (str "__proto__"))
      eqn:E2; cbn [negb].
    + intros H. apply IH in H as (Hin & Hk & Hp).
      split; [apply in_or_app; now left|now split].
    + intros H. inversion H; subst filePath; clear H.
      apply sameString_false in E2.
      split; [apply in_or_app; right; now left|]. split; congruence.
  - intros H. apply IH in H as (Hin & Hk & Hp).
    split; [apply in_or_app; now left|now split].
Qed.

Lemma entry_sound_witness :
  In (str "./src/extension.ts") Webpack.sampleFiles /\
  Webpack.entryName (str "./src/extension.ts") = str "extension" /\
  str "extension" <> str "__proto__".
Proof.
  apply entry_sound. vm_compute. reflexivity.
Defined.

(** X18. When the globbed files have pairwise distinct entry names, each
    file whose entry name is not [__proto__] is in the entries object under
    its entry name: no file is dropped or overwritten. *)
Theorem entry_complete (files : list jsstring) (filePath : jsstring) :
  NoDup (map Webpack.entryName files) ->
  In filePath files ->
  Webpack.entryName filePath <> str "__proto__" ->
  Webpack.getOwn (Webpack.entryName filePath) (Webpack.entry files)
    = Some filePath.
Proof.
  induction files as [|p files IH] using rev_ind; [contradiction|].
  intros Hnd Hin Hproto.
  rewrite map_app in Hnd. cbn [map] in Hnd.
  apply NoDup_remove in Hnd as [Hnd Hfresh]. rewrite app_nil_r in *.
  rewrite entry_snoc, getOwn_assign.
  apply in_app_or in Hin as [Hin|[->|[]]].
  - assert (E : Webpack.sameString (Webpack.entryName p)
                  (Webpack.entryName filePath) = false).
    { apply sameString_false. intros E. apply Hfresh. rewrite E.
      now apply in_map. }
    rewrite E. cbn [andb]. now apply IH.
  - assert (E1 : Webpack.sameString (Webpack.entryName filePath)
                   (Webpack.entryName filePath) = true)
      by now apply sameString_true.
    assert (E2 : Webpack.sameString (Webpack.entryName filePath)
                   (str "__proto__") = false)
      by now apply sameString_false.
    now rewrite E1, E2.
Qed.

Lemma entry_complete_witness :
  Webpack.getOwn (str "debugger/processList")
                 (Webpack.entry Webpack.sampleFiles)
  = Some (str "./src/debugger/processList.ts").
Proof.
  apply (entry_complete Webpack.sampleFiles
           (str "./src/debugger/processList.ts")).
  - repeat constructor; cbn; intuition discriminate.
  - right. left. reflexivity.
  - vm_compute. discriminate.
Defined.

(* ===================================================================== *)
(** ** The line parser at widths of any magnitude                         *)
(* ===================================================================== *)

Section WidthFacts.

Lemma widthText_nonneg (w : Z) :
  (0 <= w - 1 < 2 ^ 53)%Z -> widthText w = decimal (Z.to_N (w - 1)).
Proof.
  intros H. change (2 ^ 53)%Z with 9007199254740992%Z in H.
  unfold widthText. cbv zeta.
  destruct (Z.ltb_spec (w - 1) 0) as [Hn|_]; [lia|].
  assert (Hlt : (Z.to_N (w - 1) < 2 ^ 53)%N).
  { change (2 ^ 53)%N with 9007199254740992%N. lia. }
  rewrite (toDouble_safe _ Hlt). cbn [toString].
  apply N.ltb_lt in Hlt. now rewrite Hlt.
Qed.

Lemma widthText_negative (w : Z) :
  (- 2 ^ 53 < w - 1 < 0)%Z ->
  widthText w = str "-" ++ decimal (Z.to_N (- (w - 1))).
Proof.
  intros H. change (2 ^ 53)%Z with 9007199254740992%Z in H.
  unfold widthText. cbv zeta.
  destruct (Z.ltb_spec (w - 1) 0) as [_|Hn]; [|lia].
  assert (Hlt : (Z.to_N (- (w - 1)) < 2 ^ 53)%N).
  { change (2 ^ 53)%N with 9007199254740992%N. lia. }
  rewrite (toDouble_safe _ Hlt). cbn [toString].
  apply N.ltb_lt in Hlt. now rewrite Hlt.
Qed.

Lemma braces_decimal (n : N) :
  braces (decimal n) = Repeat ClassAny (N.to_nat n).
Proof.
  unfold braces. rewrite MV_decimal.
  pose proof (decimal_nonempty n).
  destruct (decimal n); [congruence|reflexivity].
Qed.

(** A text without period and plus sign reads as itself. *)
Lemma readText_plain (s : jsstring) :
  forallb (fun x => negb (x =? 46)%N && negb (x =? 43)%N) s = true ->
  readText s = map (fun x => Atom (ClassChar x)) s.
Proof.
  induction s as [|x s IH]; [reflexivity|]. intros H.
  cbn [forallb] in H. apply andb_prop in H as [Hx Hs].
  apply andb_prop in Hx as [Hdot _]. apply negb_true_iff in Hdot.
  specialize (IH Hs). cbn [readText map]. unfold textAtom. rewrite Hdot.
  destruct s as [|q s]; [reflexivity|].
  cbn [forallb] in Hs. apply andb_prop in Hs as [Hq _].
  apply andb_prop in Hq as [_ Hplus]. apply negb_true_iff in Hplus.
  now rewrite Hplus, IH.
Qed.

Lemma digits_plain (s : jsstring) :
  allDigits s = true ->
  forallb (fun x => negb (x =? 46)%N && negb (x =? 43)%N) s = true.
Proof.
  induction s as [|x s IH]; [reflexivity|]. cbn. intros H.
  apply andb_prop in H as [Hx Hs]. rewrite (IH Hs), andb_true_r.
  apply isDigit_range in Hx.
  apply andb_true_intro. split; apply negb_true_iff, N.eqb_neq; lia.
Qed.

Lemma braces_negative (n : N) :
  braces (str "-" ++ decimal n) =
  Seq (Atom ClassAny) (literal (str "{-" ++ decimal n ++ str "}")).
Proof.
  unfold braces, literal. change (str "-") with [45%N].
  change (str "{-") with [123%N; 45%N]. change (str "{") with [123%N].
  cbn [app truthy MV]. change (isDigit 45%N) with false. cbv iota.
  rewrite readText_plain; [reflexivity|].
  change (123%N :: 45%N :: decimal n ++ str "}")
    with ([123%N; 45%N] ++ decimal n ++ str "}").
  rewrite !forallb_app. apply andb_true_intro. split; [reflexivity|].
  apply andb_true_intro. split; [|reflexivity].
  apply digits_plain, decimal_allDigits.
Qed.

(** On the safe range the text between the braces is the plain numeral. *)
Lemma braces_widthText (w : Z) :
  (- 2 ^ 53 < w - 1 < 2 ^ 53)%Z -> braces (widthText w) = anyTimes (w - 1).
Proof.
  intros H. unfold anyTimes.
  destruct (Z.leb_spec 0 (w - 1)) as [Hz|Hz].
  - rewrite widthText_nonneg by lia. rewrite braces_decimal.
    now rewrite Z_N_nat.
  - rewrite widthText_negative by lia. apply braces_negative.
Qed.

Lemma psEntryDouble_safe (u c : Z) :
  (- 2 ^ 53 < u - 1 < 2 ^ 53)%Z -> (- 2 ^ 53 < c - 1 < 2 ^ 53)%Z ->
  psEntryDouble u c = psEntry u c.
Proof.
  intros Hu Hc. unfold psEntryDouble, psEntry.
  now rewrite (braces_widthText _ Hu), (braces_widthText _ Hc).
Qed.

(** On the safe range the two embeddings of the parser are one. *)
Lemma parseLineFromPsDouble_safe (line : jsstring) (u c : Z) :
  (- 2 ^ 53 < u - 1 < 2 ^ 53)%Z -> (- 2 ^ 53 < c - 1 < 2 ^ 53)%Z ->
  parseLineFromPsDouble line u c = parseLineFromPs line u c.
Proof.
  intros Hu Hc. unfold parseLineFromPsDouble.
  now rewrite (psEntryDouble_safe _ _ Hu Hc).
Qed.

End WidthFacts.

(** The pattern text printed for the width [1e21] has literal braces. *)
Remark widthText_exponent :
  widthText 1000000000000000000000 = str "1e+21" /\
  braces (str "1e+21") =
    Seq (Atom ClassAny)
        (seqs [ Atom (ClassChar 123%N); Atom (ClassChar 49%N);
                Plus (ClassChar 101%N); Atom (ClassChar 50%N);
                Atom (ClassChar 49%N); Atom (ClassChar 125%N) ]).
Proof. split; vm_compute; reflexivity. Qed.

(** C5, as the code has it. For positive integer widths of at most [2^53],
    which the pattern prints in plain decimal, a line shorter than
    [1 + 1 + (usernameWidth - 1) + 1 + (commandWidth - 1) + 1] characters
    yields the no-match signal. *)
Theorem parseLineFromPs_short_line (line : jsstring) (u c : Z) :
  (1 <= u <= 2 ^ 53)%Z -> (1 <= c <= 2 ^ 53)%Z ->
  (Z.of_nat (length line) < 1 + 1 + (u - 1) + 1 + (c - 1) + 1)%Z ->
  parseLineFromPsDouble line u c = Normal None /\
  parseLineFromPs line u c = Normal None.
Proof.
  intros Hu Hc Hlen.
  assert (Hz : parseLineFromPs line u c = Normal None).
  { destruct (parseLineFromPs_total line u c) as [[it|] E]; [|exact E].
    apply parseLineFromPs_inv in E as (f & Hf & _).
    apply parsedFields_inv in Hf as (matches & _ & Hm & _).
    assert (Hu1 : (1 <= u)%Z) by lia. assert (Hc1 : (1 <= c)%Z) by lia.
    pose proof (psMatch_length _ _ _ _ Hu1 Hc1 Hm). lia. }
  split; [|exact Hz].
  change (2 ^ 53)%Z with 9007199254740992%Z in *.
  rewrite parseLineFromPsDouble_safe; [exact Hz| |];
    change (2 ^ 53)%Z with 9007199254740992%Z; lia.
Qed.

Lemma parseLineFromPs_short_line_witness :
  parseLineFromPsDouble (str "    1 root") 20 50 = Normal None /\
  parseLineFromPs (str "    1 root") 20 50 = Normal None.
Proof.
  apply parseLineFromPs_short_line.
  - change (2 ^ 53)%Z with 9007199254740992%Z. lia.
  - change (2 ^ 53)%Z with 9007199254740992%Z. lia.
  - vm_compute. reflexivity.
Defined.

(** C5 fails as worded at the width [1e21], which is positive: the template
    literal prints [1e+21], the braces are literal, and the line
    [1 a{1e21} bc x] of 14 characters yields a record. *)
Lemma short_line_counterexample :
  (1 <= 1000000000000000000000)%Z /\ (1 <= 3)%Z /\
  (Z.of_nat (length exponentLine)
   < 1 + 1 + (1000000000000000000000 - 1) + 1 + (3 - 1) + 1)%Z /\
  parseLineFromPsDouble exponentLine 1000000000000000000000 3 =
    Normal (Some {| pid := Fin 1; label := str "a{1e21}:bc";
                    description := str "1"; detail := str "x" |}).
Proof.
  split; [lia|]. split; [lia|]. split.
  - vm_compute. reflexivity.
  - vm_compute. reflexivity.
Qed.
